(** * Langevin dynamics sampler ([score_models/sampler.py])

    A shallow embedding of [langevin_dynamics] and of the two closures it
    defines, [langevin_dynamics_one_chain] and [inner], together with the
    part of the array runtime they call: element-wise arithmetic with
    broadcasting, [random.split], [random.normal], [lax.scan], [np.vstack]
    and [vmap].

    Modelling choices.
    - An array is a shape and a row-major buffer of scalars.  All arrays
      hold scalars of one element type, the runtime's default
      floating-point type [float32]; element types are not modelled, so
      a call whose [starter_xs] or score values have another element
      type (which [lax.scan] rejects when the carry changes its element
      type) is outside the embedding.
    - The scalar arithmetic and the pseudorandom generator are interfaces
      ([FloatOps], [PRNG]): nothing is assumed about them beyond being
      functions, so what is proved holds for any rounding behaviour and
      any key-derivation scheme.  Where a statement needs a law of the
      arithmetic, the law is a hypothesis of that statement.
    - A Python exception is a [Raise] result; the call is a function from
      its arguments to either its outputs or the exception it raises.
    - [jit] does not change what is computed and is left out.  The runtime
      traces the scanned and the mapped function once, on shapes alone;
      the embedding runs them step by step and row by row, each scalar
      being computed by the same sequence of operations.  How the
      compiled batched program rounds its operations, compared with a
      program compiled for one chain, is a matter below the scalar
      interface and is not modelled.  With no chain or no step the
      embedding never runs the chain or the step, where the runtime
      still traces it once. *)

From Stdlib Require Import String Arith Lia Bool ZArith List.
Import ListNotations.


(** ** Exceptions and fallible results *)

(** Python exceptions, by class and message.  [ScoreFunctionError] stands
    for whatever exception left the caller's score function, which the
    sampler neither catches nor wraps; the sampler and the runtime never
    raise it themselves. *)
Inductive exn : Type :=
| ValueError (msg : string)
| TypeError (msg : string)
| AttributeError (msg : string)
| ScoreFunctionError (msg : string).

Inductive result (A : Type) : Type :=
| Ok (a : A)
| Raise (e : exn).

Arguments Ok {A} a.
Arguments Raise {A} e.

Definition bind {A B : Type} (m : result A) (k : A -> result B) : result B :=
  match m with
  | Ok a => k a
  | Raise e => Raise e
  end.

Declare Scope result_scope.
Delimit Scope result_scope with result.
Notation "x <- m ;; k" := (bind m (fun x => k))
  (at level 61, m at next level, right associativity) : result_scope.
Notation "' p <- m ;; k" := (bind m (fun p => k))
  (at level 61, p pattern, m at next level, right associativity) : result_scope.
Open Scope result_scope.

Fixpoint mapM {A B : Type} (f : A -> result B) (l : list A) : result (list B) :=
  match l with
  | [] => Ok []
  | a :: l' =>
      b <- f a ;;
      bs <- mapM f l' ;;
      Ok (b :: bs)
  end.

(** ** The runtime interfaces *)

(** Floating-point scalars: the operations the sampler uses. [ftwo] is the
    literal [2] of [2 * epsilon]. *)
Class FloatOps : Type := {
  F : Type;
  fadd : F -> F -> F;
  fmul : F -> F -> F;
  fsqrt : F -> F;
  ftwo : F;
  fzero : F
}.

(** The splittable generator.  [subkey k num i] is entry [i] of
    [random.split(k, num)]; [normal_entry k shape i] is entry [i], in
    row-major order, of [random.normal(k, shape)]. *)
Class PRNG (FO : FloatOps) : Type := {
  Key : Type;
  subkey : Key -> nat -> nat -> Key;
  normal_entry : Key -> list nat -> nat -> F
}.

(** ** Arrays *)

Section Arrays.
Context {FO : FloatOps}.

Record ndarray : Type := mk_ndarray {
  shape : list nat;
  data : list F
}.

(** Number of entries of an array of shape [s]. *)
Definition size (s : list nat) : nat := fold_right Nat.mul 1 s.

Definition wf (a : ndarray) : Prop := length (data a) = size (shape a).

Definition shape_eqb (s1 s2 : list nat) : bool :=
  if list_eq_dec Nat.eq_dec s1 s2 then true else false.

(** [chunks n sz d]: the [n] consecutive blocks of [sz] entries of [d]. *)
Fixpoint chunks (n sz : nat) (d : list F) : list (list F) :=
  match n with
  | 0 => []
  | S n' => firstn sz d :: chunks n' sz (skipn sz d)
  end.

(** *** Broadcasting *)

Definition broadcast_dim (m n : nat) : option nat :=
  if m =? n then Some m
  else if m =? 1 then Some n
  else if n =? 1 then Some m
  else None.

(** Shapes are aligned on their last axis, so the recursion runs over the
    reversed shapes. *)
Fixpoint broadcast_rev (r1 r2 : list nat) : option (list nat) :=
  match r1, r2 with
  | [], r => Some r
  | r, [] => Some r
  | m :: r1', n :: r2' =>
      match broadcast_dim m n, broadcast_rev r1' r2' with
      | Some d, Some r => Some (d :: r)
      | _, _ => None
      end
  end.

Definition broadcast_shapes (s1 s2 : list nat) : option (list nat) :=
  option_map (@rev nat) (broadcast_rev (rev s1) (rev s2)).

(** [expand from to d]: the buffer of an array of shape [from] stretched
    to shape [to], where the two shapes have the same rank and every axis
    of [from] either agrees with [to] or has length one. *)
Fixpoint expand (from to : list nat) (d : list F) : list F :=
  match from, to with
  | m :: from', n :: to' =>
      let cs := map (expand from' to') (chunks m (size from') d) in
      if m =? n then concat cs else concat (repeat (concat cs) n)
  | _, _ => d
  end.

(** No stretching is needed when the shapes already agree. *)
Definition broadcast_to (a : ndarray) (s : list nat) : list F :=
  if list_eq_dec Nat.eq_dec (shape a) s then data a
  else expand (repeat 1 (length s - length (shape a)) ++ shape a) s (data a).

Definition zip_with (f : F -> F -> F) (l1 l2 : list F) : list F :=
  map (fun p => f (fst p) (snd p)) (combine l1 l2).

(** [a + b] on arrays. *)
Definition add (a b : ndarray) : result ndarray :=
  match broadcast_shapes (shape a) (shape b) with
  | Some s =>
      Ok (mk_ndarray s (zip_with fadd (broadcast_to a s) (broadcast_to b s)))
  | None => Raise (TypeError "add got incompatible shapes for broadcasting")
  end.

(** [c * a] with a Python scalar on the left. *)
Definition smul_l (c : F) (a : ndarray) : ndarray :=
  mk_ndarray (shape a) (map (fmul c) (data a)).

(** [a * c] with a Python scalar on the right. *)
Definition smul_r (a : ndarray) (c : F) : ndarray :=
  mk_ndarray (shape a) (map (fun v => fmul v c) (data a)).

Definition zeros (s : list nat) : ndarray :=
  mk_ndarray s (repeat fzero (size s)).

(** *** The score function

    An opaque callable of the caller: it returns an array or fails. *)
Inductive score_result : Type :=
| Returns (g : ndarray)
| Fails (what : string).

(** Calling it: a failure propagates to the caller of the sampler. *)
Definition call (r : score_result) : result ndarray :=
  match r with
  | Returns g => Ok g
  | Fails what => Raise (ScoreFunctionError what)
  end.

(** *** Stacking and unstacking along the leading axis *)

(** The rows of [a] along axis 0, as [vmap] hands them to the mapped
    function. *)
Definition unstack (a : ndarray) : result (list ndarray) :=
  match shape a with
  | [] => Raise (ValueError "vmap was requested to map its argument along axis 0, which implies that its rank should be at least 1, but is only 0")
  | n :: D => Ok (map (mk_ndarray D) (chunks n (size D) (data a)))
  end.

Definition same_shapes (s : list nat) (l : list ndarray) : bool :=
  forallb (fun a => shape_eqb (shape a) s) l.

(** The batched output of a mapped function: one row per element of [l].
    The runtime traces the mapped function once, so all rows share one
    shape; the embedding runs it row by row and checks that.  With no
    rows at all the traced row shape is not available here, and the
    result is the empty array of shape [(0,)], where the runtime returns
    an empty array of shape [(0, *row_shape)]: the shapes of the outputs
    of a call with [n_chains = 0] are not modelled faithfully. *)
Definition stack (l : list ndarray) : result ndarray :=
  match l with
  | [] => Ok (mk_ndarray [0] [])
  | a :: _ =>
      if same_shapes (shape a) l
      then Ok (mk_ndarray (length l :: shape a) (concat (map data l)))
      else Raise (TypeError "mapped function returned rows of different shapes")
  end.

(** *** [np.vstack] *)

Definition atleast_2d (a : ndarray) : ndarray :=
  match shape a with
  | [] => mk_ndarray [1; 1] (data a)
  | [d] => mk_ndarray [1; d] (data a)
  | _ => a
  end.

(** [concatenate(arrs, axis=0)] for arrays that agree on every axis but
    the first. *)
Definition concatenate0 (arrs : list ndarray) : result ndarray :=
  match arrs with
  | [] => Raise (ValueError "Need at least one array to concatenate.")
  | a :: _ =>
      if forallb (fun b => shape_eqb (tl (shape b)) (tl (shape a))) arrs
      then Ok (mk_ndarray
                 (fold_right Nat.add 0 (map (fun b => hd 0 (shape b)) arrs)
                    :: tl (shape a))
                 (concat (map data arrs)))
      else Raise (TypeError "Cannot concatenate arrays with different shapes")
  end.

(** [np.vstack(xs)], where [xs] are the entries of the argument along its
    leading axis: each is made at least two-dimensional, then all are
    concatenated along axis 0. *)
Definition vstack (xs : list ndarray) : result ndarray :=
  concatenate0 (map atleast_2d xs).

End Arrays.

(** ** The sampler *)

Section Sampler.
Context {FO : FloatOps} {RNG : PRNG FO}.

(** The parameters handed through to the score function. *)
Context {Params : Type}.

(** [random.split(key, num)]. *)
Definition random_split (key : Key) (num : nat) : list Key :=
  map (subkey key num) (seq 0 num).

(** [random.normal(key, shape)] for a shape of integers. *)
Definition random_normal (key : Key) (s : list nat) : ndarray :=
  mk_ndarray s (map (normal_entry key s) (seq 0 (size s))).

(** A Python shape tuple may hold [None], as in [(None, 2)]; only a tuple
    of integers is a shape. *)
Fixpoint dims_of (t : list (option nat)) : result (list nat) :=
  match t with
  | [] => Ok []
  | Some d :: t' => s <- dims_of t' ;; Ok (d :: s)
  | None :: _ => Raise (TypeError "Shapes must be 1D sequences of concrete values of integer type")
  end.

(** [lax.scan(f, init, xs)]: the carry is threaded through [xs] and the
    per-step outputs are collected in order.  The carry a step returns
    must have the type of the carry it was given: its shape, checked by
    [carry_checked], and its element type, which is the same for all
    arrays here.  Over no key at all the loop returns [init] without
    running the step, where the runtime still traces the step once. *)
Fixpoint scan_loop (f : ndarray -> Key -> result (ndarray * ndarray))
    (carry : ndarray) (xs : list Key) : result (ndarray * list ndarray) :=
  match xs with
  | [] => Ok (carry, [])
  | k :: xs' =>
      '(carry', y) <- f carry k ;;
      '(final, ys) <- scan_loop f carry' xs' ;;
      Ok (final, y :: ys)
  end.

Definition carry_checked (f : ndarray -> Key -> result (ndarray * ndarray))
    (carry : ndarray) (k : Key) : result (ndarray * ndarray) :=
  '(carry', y) <- f carry k ;;
  if shape_eqb (shape carry') (shape carry) then Ok (carry', y)
  else Raise (TypeError "scan body function carry input and carry output must have equal types")%string.

Definition lax_scan (f : ndarray -> Key -> result (ndarray * ndarray))
    (init : ndarray) (xs : list Key) : result (ndarray * list ndarray) :=
  scan_loop (carry_checked f) init xs.

(** [vmap(f)(xs, keys)]: both arguments are mapped along axis 0, which
    must have one size; row [i] of each output is [f] at row [i] of each
    input.  This is the meaning of the batched program, taken row by
    row; how the runtime evaluates the batch is not modelled. *)
Definition vmap (f : ndarray -> Key -> result (ndarray * ndarray))
    (xs : ndarray) (keys : list Key) : result (ndarray * ndarray) :=
  rows <- unstack xs ;;
  if length rows =? length keys then
    outs <- mapM (fun xk => f (fst xk) (snd xk)) (combine rows keys) ;;
    finals <- stack (map fst outs) ;;
    trajs <- stack (map snd outs) ;;
    Ok (finals, trajs)
  else Raise (ValueError "vmap got inconsistent sizes for array axes to be mapped").

Section Closures.
(** What the closures capture from the enclosing call. *)
Variable sample_shape : list (option nat).
Variable epsilon : F.
Variable score_func : ndarray -> score_result.  (* partial(score_func, params) *)
Variable n_samples : nat.

Definition inner (prev_x : ndarray) (key : Key) : result (ndarray * ndarray) :=
  D <- dims_of (tl sample_shape) ;;
  let draw := random_normal key D in
  g <- call (score_func prev_x) ;;
  drift <- add prev_x (smul_l epsilon g) ;;
  new_x <- add drift (smul_l (fsqrt (fmul ftwo epsilon)) draw) ;;
  Ok (new_x, prev_x).

Definition langevin_dynamics_one_chain (x : ndarray) (key : Key)
  : result (ndarray * ndarray) :=
  let keys := random_split key n_samples in
  '(final_xs, xs) <- lax_scan inner x keys ;;
  samples <- vstack xs ;;
  Ok (final_xs, samples).
End Closures.

Definition both_None_msg : string :=
  "`starter_xs` and `sample_shape` cannot both be None!".

Definition is_None {A : Type} (o : option A) : bool :=
  match o with None => true | Some _ => false end.

Definition langevin_dynamics (n_chains n_samples : nat) (key : Key)
    (epsilon : F) (score_func : Params -> ndarray -> score_result)
    (params : Params) (init_scale : F)
    (starter_xs : option ndarray) (sample_shape : option (list (option nat)))
  : result (ndarray * ndarray * ndarray) :=
  _ <- (if is_None starter_xs && is_None sample_shape
        then Raise (ValueError both_None_msg) else Ok tt) ;;
  sample_shape <-
    match sample_shape with
    | Some t => Ok t
    | None =>
        match starter_xs with
        | Some B => Ok (None :: map Some (tl (shape B)))
        | None => Raise (AttributeError "'NoneType' object has no attribute 'shape'")
        end
    end ;;
  starter_xs <-
    match starter_xs with
    | Some B => Ok B
    | None =>
        D <- dims_of (Some n_chains :: tl sample_shape) ;;
        Ok (smul_r (random_normal key D) init_scale)
    end ;;
  let score_func := score_func params in
  let keys := random_split key n_chains in
  '(final_samples, samples) <-
    vmap (langevin_dynamics_one_chain sample_shape epsilon score_func n_samples)
      starter_xs keys ;;
  Ok (starter_xs, final_samples, samples).

End Sampler.

(** ** A concrete runtime, for evaluating the sampler

    Integer scalars with the integer square root, and a small keyed
    generator whose draws lie in [-3 .. 3]. *)
Module IntRuntime.

Definition int_ops : FloatOps :=
  {| F := Z; fadd := Z.add; fmul := Z.mul; fsqrt := Z.sqrt;
     ftwo := 2%Z; fzero := 0%Z |}.

Definition int_subkey (k : Z) (num i : nat) : Z :=
  (k * 31 + Z.of_nat num * 7 + Z.of_nat i + 1)%Z.

Definition int_normal_entry (k : Z) (_ : list nat) (i : nat) : @F int_ops :=
  ((k * 5 + Z.of_nat i * 3) mod 7 - 3)%Z.

Definition int_prng : PRNG int_ops :=
  {| Key := Z; subkey := int_subkey; normal_entry := int_normal_entry |}.

Definition arr (s : list nat) (d : list Z) : @ndarray int_ops :=
  @mk_ndarray int_ops s d.

(** A score function that is zero everywhere. *)
Definition zero_score (_ : unit) (x : @ndarray int_ops) : @score_result int_ops :=
  Returns (@zeros int_ops (shape x)).

(** The score of a standard normal density, [-x]. *)
Definition neg_score (_ : unit) (x : @ndarray int_ops) : @score_result int_ops :=
  Returns (@smul_l int_ops (-1)%Z x).

(** The same score, written with the scalar on the right. *)
Definition neg_score_r (_ : unit) (x : @ndarray int_ops) : @score_result int_ops :=
  Returns (@smul_r int_ops x (-1)%Z).

(** A score function that always fails. *)
Definition bad_score (_ : unit) (_ : @ndarray int_ops) : @score_result int_ops :=
  @Fails int_ops "broken score function".

Definition run := @langevin_dynamics int_ops int_prng unit.

(** A score function that answers with a scalar, whatever it is asked. *)
Definition scalar_score (_ : unit) (_ : @ndarray int_ops) : @score_result int_ops :=
  Returns (arr [] [1]%Z).

(** A score function that only accepts single two-dimensional samples. *)
Definition picky_score (_ : unit) (x : @ndarray int_ops) : @score_result int_ops :=
  if shape_eqb (shape x) [2] then Returns (@smul_l int_ops (-1)%Z x)
  else @Fails int_ops "expected one sample of shape (2,)".

(** Two starting batches of two chains that share their second row. *)
Definition batch_a : @ndarray int_ops := arr [2; 2] [1; 2; 3; 4]%Z.
Definition batch_b : @ndarray int_ops := arr [2; 2] [7; 7; 3; 4]%Z.

(** A starting batch of three chains of two-dimensional samples. *)
Definition zeros_3_2 : @ndarray int_ops :=
  arr [3; 2] [0; 0; 0; 0; 0; 0]%Z.

End IntRuntime.

(** ** A runtime with a signed zero

    Integer scalars with a negative zero beside the positive one, added
    and multiplied by the rules of IEEE arithmetic: [-0 + -0 = -0], every
    other sum of zeros is [+0], and a zero product takes the sign of its
    factors; the square root is the integer square root.  In it [v + 0]
    is not always [v] ([-0 + 0 = +0]), as for floating-point numbers; the
    two zeros have the same value. *)
Module SignedZeroRuntime.

Inductive sz : Type :=
| NegZero
| Num (z : Z).  (* [Num 0] is the positive zero *)

Definition value (a : sz) : Z :=
  match a with
  | NegZero => 0%Z
  | Num z => z
  end.

Definition is_negative (a : sz) : bool :=
  match a with
  | NegZero => true
  | Num z => (z <? 0)%Z
  end.

Definition sz_add (a b : sz) : sz :=
  match a, b with
  | NegZero, NegZero => NegZero
  | _, _ => Num (value a + value b)
  end.

Definition sz_mul (a b : sz) : sz :=
  let v := (value a * value b)%Z in
  if (v =? 0)%Z
  then if xorb (is_negative a) (is_negative b) then NegZero else Num 0
  else Num v.

Definition sz_sqrt (a : sz) : sz :=
  match a with
  | NegZero => NegZero
  | Num z => Num (Z.sqrt z)
  end.

(** Numerical equality: the two zeros compare equal. *)
Definition same_value (a b : sz) : Prop := value a = value b.

Definition sz_ops : FloatOps :=
  {| F := sz; fadd := sz_add; fmul := sz_mul; fsqrt := sz_sqrt;
     ftwo := Num 2; fzero := Num 0 |}.

Definition sz_subkey (k : Z) (num i : nat) : Z :=
  (k * 31 + Z.of_nat num * 7 + Z.of_nat i + 1)%Z.

(** Draws in [-3 .. 3], the zero draw being the negative zero. *)
Definition sz_normal_entry (k : Z) (_ : list nat) (i : nat) : @F sz_ops :=
  let v := ((k * 5 + Z.of_nat i * 3) mod 7 - 3)%Z in
  if (v =? 0)%Z then NegZero else Num v.

Definition sz_prng : PRNG sz_ops :=
  {| Key := Z; subkey := sz_subkey; normal_entry := sz_normal_entry |}.

Definition sz_arr (s : list nat) (d : list sz) : @ndarray sz_ops :=
  @mk_ndarray sz_ops s d.

Definition sz_zero_score (_ : unit) (x : @ndarray sz_ops) : @score_result sz_ops :=
  Returns (@zeros sz_ops (shape x)).

End SignedZeroRuntime.

(** ** Reference definitions, following the specification *)

Section Reference.
Context {FO : FloatOps} {RNG : PRNG FO}.
Context {Params : Type}.

(** The Step Integrator on one entry: [x + eps * g + sqrt(2 * eps) * z]. *)
Definition langevin_update (epsilon : F) (x g z : F) : F :=
  fadd (fadd x (fmul epsilon g)) (fmul (fsqrt (fmul ftwo epsilon)) z).

(** The random-walk step on one entry: [x + sqrt(2 * eps) * z]. *)
Definition random_walk_update (epsilon : F) (x z : F) : F :=
  fadd x (fmul (fsqrt (fmul ftwo epsilon)) z).

Fixpoint map3 (f : F -> F -> F -> F) (l1 l2 l3 : list F) : list F :=
  match l1, l2, l3 with
  | a :: l1', b :: l2', c :: l3' => f a b c :: map3 f l1' l2' l3'
  | _, _, _ => []
  end.

(** The Chain Driver as a state machine: [chain_states step x0 keys states]
    holds when [states] is [x0; x1; ...; xT], each [x(t+1)] being what
    [step] makes of [xt] with the [t]-th key while handing [xt] back as
    the recorded output. *)
Inductive chain_states (step : ndarray -> Key -> result (ndarray * ndarray))
  : ndarray -> list Key -> list ndarray -> Prop :=
| chain_done (x : ndarray) : chain_states step x [] [x]
| chain_step (x x' : ndarray) (k : Key) (ks : list Key) (rest : list ndarray) :
    step x k = Ok (x', x) ->
    chain_states step x' ks rest ->
    chain_states step x (k :: ks) (x :: rest).

(** [stretches_to s s']: an array of shape [s] can be broadcast to shape
    [s'], that is, once [s] is padded with leading axes of length one,
    every axis either agrees with [s'] or has length one. *)
Fixpoint compatible_axes (from to : list nat) : bool :=
  match from, to with
  | [], [] => true
  | m :: from', n :: to' =>
      ((m =? n) || (m =? 1)) && compatible_axes from' to'
  | _, _ => false
  end.

Definition stretches_to (s s' : list nat) : bool :=
  compatible_axes (repeat 1 (length s' - length s) ++ s) s'.

(** The shape [np.vstack] gives to [T] stacked samples of shape [D]. *)
Definition vstack_shape (T : nat) (D : list nat) : list nat :=
  match D with
  | [] => [T; 1]
  | [d] => [T; d]
  | a :: rest => T * a :: rest
  end.

(** [a[i]]: entry [i] of [a] along its leading axis. *)
Definition row (a : ndarray) (i : nat) : ndarray :=
  let D := tl (shape a) in
  mk_ndarray D (firstn (size D) (skipn (i * size D) (data a))).

End Reference.

(** ** Basic facts about the runtime *)

Section RuntimeFacts.
Context {FO : FloatOps}.

Lemma bind_ok_inv {A B : Type} (m : result A) (k : A -> result B) (b : B) :
  bind m k = Ok b -> exists a, m = Ok a /\ k a = Ok b.
Proof.
  destruct m as [a|e]; simpl; intros H; [eauto | discriminate].
Qed.

Lemma shape_eqb_true (s1 s2 : list nat) : shape_eqb s1 s2 = true <-> s1 = s2.
Proof.
  unfold shape_eqb. destruct (list_eq_dec Nat.eq_dec s1 s2); split;
    intros; congruence.
Qed.

Lemma shape_eqb_refl (s : list nat) : shape_eqb s s = true.
Proof. apply shape_eqb_true; reflexivity. Qed.

Lemma broadcast_dim_refl (m : nat) : broadcast_dim m m = Some m.
Proof. unfold broadcast_dim. now rewrite Nat.eqb_refl. Qed.

Lemma broadcast_rev_refl (r : list nat) : broadcast_rev r r = Some r.
Proof.
  induction r as [|m r IH]; simpl; [reflexivity|].
  now rewrite broadcast_dim_refl, IH.
Qed.

Lemma broadcast_shapes_refl (s : list nat) : broadcast_shapes s s = Some s.
Proof.
  unfold broadcast_shapes. rewrite broadcast_rev_refl. simpl.
  now rewrite rev_involutive.
Qed.

Lemma broadcast_to_same (a : ndarray) : broadcast_to a (shape a) = data a.
Proof.
  unfold broadcast_to.
  destruct (list_eq_dec Nat.eq_dec (shape a) (shape a)); congruence.
Qed.

(** Adding two arrays of one shape is element-wise addition. *)
Lemma add_same_shape (a b : ndarray) :
  shape b = shape a ->
  add a b = Ok (mk_ndarray (shape a) (zip_with fadd (data a) (data b))).
Proof.
  intros Hs. unfold add. rewrite Hs, broadcast_shapes_refl.
  rewrite broadcast_to_same. rewrite <- Hs at 2. now rewrite broadcast_to_same.
Qed.

Lemma zip_with_length (f : F -> F -> F) (l1 l2 : list F) :
  length (zip_with f l1 l2) = Nat.min (length l1) (length l2).
Proof. unfold zip_with. now rewrite length_map, length_combine. Qed.

Lemma mapM_ok_Forall2 {A B : Type} (f : A -> result B) (l : list A) (bs : list B) :
  mapM f l = Ok bs <-> Forall2 (fun a b => f a = Ok b) l bs.
Proof.
  revert bs. induction l as [|a l IH]; simpl; intros bs.
  - split; intros H; [injection H as <-; constructor | inversion H; reflexivity].
  - split.
    + intros H. apply bind_ok_inv in H as (b & Hb & H).
      apply bind_ok_inv in H as (bs' & Hbs & H). injection H as <-.
      constructor; [assumption | now apply IH].
    + intros H. inversion H as [|? b ? bs' Hb Hbs]; subst.
      rewrite Hb. simpl. apply IH in Hbs. now rewrite Hbs.
Qed.

Lemma mapM_ext {A B : Type} (f g : A -> result B) (l : list A) :
  (forall a, In a l -> f a = g a) -> mapM f l = mapM g l.
Proof.
  induction l as [|a l IH]; simpl; intros H; [reflexivity|].
  rewrite (H a) by now left. destruct (g a); simpl; [|reflexivity].
  rewrite IH; [reflexivity | intros; apply H; now right].
Qed.

End RuntimeFacts.

(** ** The Step Integrator *)

Section StepIntegrator.
Context {FO : FloatOps} {RNG : PRNG FO}.
Context {Params : Type}.

Lemma zip_with_langevin_update (epsilon : F) (xs gs zs : list F) :
  zip_with fadd (zip_with fadd xs (map (fmul epsilon) gs))
    (map (fmul (fsqrt (fmul ftwo epsilon))) zs)
  = map3 (langevin_update epsilon) xs gs zs.
Proof.
  unfold zip_with. revert gs zs.
  induction xs as [|x xs IH]; intros [|g gs] [|z zs]; simpl; try reflexivity.
  now rewrite IH.
Qed.

Lemma inner_records_prev (sample_shape : list (option nat)) (epsilon : F)
    (score : ndarray -> score_result) (prev_x : ndarray) (key : Key)
    (new_x y : ndarray) :
  inner sample_shape epsilon score prev_x key = Ok (new_x, y) -> y = prev_x.
Proof.
  unfold inner. intros H.
  apply bind_ok_inv in H as (D & _ & H).
  apply bind_ok_inv in H as (g & _ & H).
  apply bind_ok_inv in H as (drift & _ & H).
  apply bind_ok_inv in H as (nx & _ & H).
  now injection H as _ <-.
Qed.

(** One step on arrays of one shape, entry by entry. *)
Lemma inner_same_shape (sample_shape : list (option nat)) (epsilon : F)
    (score : ndarray -> score_result) (prev_x : ndarray) (key : Key)
    (D : list nat) (g : ndarray) :
  dims_of (tl sample_shape) = Ok D ->
  shape prev_x = D ->
  score prev_x = Returns g ->
  shape g = D ->
  inner sample_shape epsilon score prev_x key
    = Ok (mk_ndarray D
            (map3 (langevin_update epsilon) (data prev_x) (data g)
               (data (random_normal key D))),
          prev_x).
Proof.
  intros HD Hx Hg Hgs. unfold inner. rewrite HD, Hg. simpl.
  rewrite add_same_shape by (simpl; congruence). simpl.
  rewrite add_same_shape by (simpl; congruence). simpl.
  now rewrite zip_with_langevin_update, Hx.
Qed.

(** A step that returns went through the three array operations. *)
Lemma inner_ok_inv (sample_shape : list (option nat)) (epsilon : F)
    (score : ndarray -> score_result) (prev_x : ndarray) (key : Key)
    (new_x y : ndarray) :
  inner sample_shape epsilon score prev_x key = Ok (new_x, y) ->
  exists (D : list nat) (g drift : ndarray),
    dims_of (tl sample_shape) = Ok D /\
    score prev_x = Returns g /\
    add prev_x (smul_l epsilon g) = Ok drift /\
    add drift (smul_l (fsqrt (fmul ftwo epsilon)) (random_normal key D))
      = Ok new_x /\
    y = prev_x.
Proof.
  unfold inner. intros H.
  apply bind_ok_inv in H as (D & HD & H).
  apply bind_ok_inv in H as (g & Hg & H).
  apply bind_ok_inv in H as (drift & Hdrift & H).
  apply bind_ok_inv in H as (nx & Hnx & H).
  injection H as <- <-.
  exists D, g, drift. repeat split; try assumption.
  destruct (score prev_x); simpl in Hg; [congruence | discriminate].
Qed.

(** C1.  With [z] the noise draw of the sample shape taken from [key]:
    a step that returns has computed
    [prev_x + epsilon * score(prev_x) + sqrt(2 * epsilon) * z], the score
    function being applied with its bound [params], and hands [prev_x]
    back as the recorded output; when the state and the score value have
    the shape of [z], the step returns, and the entries of the new state
    are [x + epsilon * g + sqrt(2 * epsilon) * z]; and the result depends
    on [key] through [z] only. *)
Theorem inner_langevin_step
    (sample_shape : list (option nat)) (epsilon : F)
    (score_func : Params -> ndarray -> score_result) (params : Params)
    (prev_x : ndarray) (key : Key) (D : list nat) :
  dims_of (tl sample_shape) = Ok D ->
  let z := random_normal key D in
  (forall new_x y : ndarray,
      inner sample_shape epsilon (score_func params) prev_x key = Ok (new_x, y) ->
      y = prev_x /\
      exists g drift : ndarray,
        score_func params prev_x = Returns g /\
        add prev_x (smul_l epsilon g) = Ok drift /\
        add drift (smul_l (fsqrt (fmul ftwo epsilon)) z) = Ok new_x)
  /\ (forall g : ndarray,
      score_func params prev_x = Returns g ->
      shape prev_x = D ->
      shape g = D ->
      inner sample_shape epsilon (score_func params) prev_x key
        = Ok (mk_ndarray D
                (map3 (langevin_update epsilon) (data prev_x) (data g) (data z)),
              prev_x))
  /\ (forall key' : Key,
      random_normal key' D = z ->
      inner sample_shape epsilon (score_func params) prev_x key'
        = inner sample_shape epsilon (score_func params) prev_x key).
Proof.
  intros HD z. split; [|split].
  - intros new_x y H.
    apply inner_ok_inv in H as (D' & g & drift & HD' & Hg & Hdrift & Hnew & ->).
    rewrite HD in HD'. injection HD' as <-.
    split; [reflexivity|]. exists g, drift. auto.
  - intros g Hg Hx Hgs. now apply inner_same_shape.
  - intros key' Hz. unfold inner. rewrite HD. cbn [bind]. now rewrite Hz.
Qed.

End StepIntegrator.

(** ** The Chain Driver *)

Section ChainDriver.
Context {FO : FloatOps} {RNG : PRNG FO}.

Implicit Types (step : ndarray -> Key -> result (ndarray * ndarray)).

Lemma chain_states_head step x ks states :
  chain_states step x ks states -> exists rest, states = x :: rest.
Proof. intros H; inversion H; eauto. Qed.

Lemma chain_states_length step x ks states :
  chain_states step x ks states -> length states = S (length ks).
Proof. induction 1; simpl; congruence. Qed.

(** Consecutive states are related by the step taken with the key of
    that position. *)
Lemma chain_states_nth step x0 ks states t k :
  chain_states step x0 ks states ->
  nth_error ks t = Some k ->
  exists x x',
    nth_error states t = Some x /\ nth_error states (S t) = Some x' /\
    step x k = Ok (x', x).
Proof.
  intros H. revert t. induction H as [x|x x' k0 ks rest Hstep Hrest IH];
    intros t Hk.
  - destruct t; discriminate.
  - destruct t as [|t]; simpl in Hk.
    + injection Hk as ->. destruct (chain_states_head _ _ _ _ Hrest) as (r & ->).
      exists x, x'. simpl. auto.
    + destruct (IH t Hk) as (y & y' & Hy & Hy' & Hs).
      exists y, y'. simpl. auto.
Qed.

(** A scan that returns went through the states it recorded. *)
Lemma lax_scan_states step x0 ks xT ys :
  (forall c k c' y, step c k = Ok (c', y) -> y = c) ->
  lax_scan step x0 ks = Ok (xT, ys) ->
  chain_states step x0 ks (ys ++ [xT]) /\
  Forall (fun x => shape x = shape x0) (ys ++ [xT]).
Proof.
  intros Hrec. unfold lax_scan. revert x0 xT ys.
  induction ks as [|k ks IH]; simpl; intros x0 xT ys H.
  - injection H as <- <-. simpl. split; repeat constructor.
  - apply bind_ok_inv in H as ([c' y] & Hc & H).
    apply bind_ok_inv in H as ([final ys'] & Hscan & H).
    injection H as <- <-.
    unfold carry_checked in Hc.
    apply bind_ok_inv in Hc as ([c1 y1] & Hstep & Hc).
    destruct (shape_eqb (shape c1) (shape x0)) eqn:Hsh; [|discriminate].
    injection Hc as <- <-. apply shape_eqb_true in Hsh.
    pose proof (Hrec _ _ _ _ Hstep) as ->.
    destruct (IH _ _ _ Hscan) as (Hst & Hall).
    split.
    + simpl. econstructor; eassumption.
    + simpl. constructor; [reflexivity|].
      rewrite <- Hsh. exact Hall.
Qed.

Lemma last_nonempty_default {A : Type} (l : list A) (a d d' : A) :
  last (a :: l) d = last (a :: l) d'.
Proof.
  revert a. induction l as [|b l IH]; intros a; [reflexivity|].
  change (last (b :: l) d = last (b :: l) d'). apply IH.
Qed.

(** Conversely, a run of states that keep the shape of the first is what
    the scan returns. *)
Lemma states_lax_scan step x0 ks states :
  chain_states step x0 ks states ->
  Forall (fun x => shape x = shape x0) states ->
  lax_scan step x0 ks = Ok (last states x0, removelast states).
Proof.
  unfold lax_scan.
  induction 1 as [x|x x' k ks rest Hstep Hrest IH]; intros Hall.
  - reflexivity.
  - destruct (chain_states_head _ _ _ _ Hrest) as (r & ->).
    inversion Hall as [|? ? _ Hall']; subst.
    assert (Hx' : shape x' = shape x) by (inversion Hall'; assumption).
    cbn [scan_loop]. unfold carry_checked at 1. rewrite Hstep. cbn [bind].
    rewrite Hx', shape_eqb_refl. cbn [bind].
    rewrite IH by (rewrite Hx'; exact Hall'). cbn [bind].
    change (last (x :: x' :: r) x) with (last (x' :: r) x).
    now rewrite (last_nonempty_default r x' x x').
Qed.

Lemma random_split_length (key : Key) (num : nat) :
  length (random_split key num) = num.
Proof. unfold random_split. now rewrite length_map, length_seq. Qed.

Lemma random_split_nth (key : Key) (num t : nat) :
  t < num -> nth_error (random_split key num) t = Some (subkey key num t).
Proof.
  intros Ht. unfold random_split.
  rewrite nth_error_map, nth_error_seq.
  destruct (Nat.ltb_spec t num); [reflexivity | lia].
Qed.

End ChainDriver.

(** ** Stacking *)

Section Stacking.
Context {FO : FloatOps}.

Lemma atleast_2d_data (a : ndarray) : data (atleast_2d a) = data a.
Proof.
  unfold atleast_2d. destruct (shape a) as [|d [|d' rest]]; reflexivity.
Qed.

Lemma sum_constant {A : Type} (f : A -> nat) (c : nat) (l : list A) :
  Forall (fun a => f a = c) l ->
  fold_right Nat.add 0 (map f l) = length l * c.
Proof.
  induction 1 as [|a l Ha _ IH]; simpl; [reflexivity|].
  now rewrite Ha, IH.
Qed.

Lemma concatenate0_same (l : list ndarray) (h : nat) (t : list nat) :
  l <> [] ->
  Forall (fun b => shape b = h :: t) l ->
  concatenate0 l = Ok (mk_ndarray (length l * h :: t) (concat (map data l))).
Proof.
  intros Hne Hall. destruct l as [|a l]; [congruence|].
  unfold concatenate0.
  assert (Ha : shape a = h :: t) by (inversion Hall; assumption).
  replace (forallb _ (a :: l)) with true.
  - rewrite (sum_constant (fun b => hd 0 (shape b)) h).
    + now rewrite Ha.
    + eapply Forall_impl; [|exact Hall]. intros b Hb. simpl. now rewrite Hb.
  - symmetry. apply forallb_forall. intros b Hb.
    rewrite Forall_forall in Hall. rewrite (Hall b Hb), Ha.
    apply shape_eqb_refl.
Qed.

(** [np.vstack] of samples that all have shape [D]. *)
Lemma vstack_same_shape (xs : list ndarray) (D : list nat) :
  xs <> [] ->
  Forall (fun x => shape x = D) xs ->
  vstack xs
    = Ok (mk_ndarray (vstack_shape (length xs) D) (concat (map data xs))).
Proof.
  intros Hne Hall. unfold vstack.
  assert (Hdata : map data (map atleast_2d xs) = map data xs).
  { rewrite map_map. apply map_ext. apply atleast_2d_data. }
  assert (Hne' : map atleast_2d xs <> []) by (destruct xs; simpl; congruence).
  assert (H2d : forall h t,
    (forall x, shape x = D -> shape (atleast_2d x) = h :: t) ->
    concatenate0 (map atleast_2d xs)
      = Ok (mk_ndarray (length xs * h :: t) (concat (map data xs)))).
  { intros h t Hs. rewrite (concatenate0_same _ h t Hne').
    - now rewrite length_map, Hdata.
    - apply Forall_map. eapply Forall_impl; [|exact Hall]. exact Hs. }
  destruct D as [|d [|d' rest]]; simpl.
  - rewrite (H2d 1 [1]); [now rewrite Nat.mul_1_r|].
    intros x Hx. unfold atleast_2d. now rewrite Hx.
  - rewrite (H2d 1 [d]); [now rewrite Nat.mul_1_r|].
    intros x Hx. unfold atleast_2d. now rewrite Hx.
  - apply H2d. intros x Hx. unfold atleast_2d. now rewrite Hx.
Qed.

Lemma stack_same_shape (l : list ndarray) (D : list nat) :
  l <> [] ->
  Forall (fun a => shape a = D) l ->
  stack l = Ok (mk_ndarray (length l :: D) (concat (map data l))).
Proof.
  intros Hne Hall. destruct l as [|a l]; [congruence|].
  unfold stack, same_shapes.
  assert (Ha : shape a = D) by (inversion Hall; assumption).
  replace (forallb _ (a :: l)) with true; [now rewrite Ha|].
  symmetry. apply forallb_forall. intros b Hb.
  rewrite Forall_forall in Hall. rewrite (Hall b Hb), Ha.
  apply shape_eqb_refl.
Qed.

End Stacking.

(** ** Trajectory of one chain *)

Section Trajectory.
Context {FO : FloatOps} {RNG : PRNG FO}.

Variable sample_shape : list (option nat).
Variable epsilon : F.
Variable score : ndarray -> score_result.
Variable D : list nat.

Hypothesis sample_dims : dims_of (tl sample_shape) = Ok D.

(** The score function returns, with an array shaped like its argument. *)
Hypothesis score_same_shape :
  forall x, shape x = D -> exists g, score x = Returns g /\ shape g = D.

Lemma inner_chain_exists (ks : list Key) (x0 : ndarray) :
  shape x0 = D ->
  exists states,
    chain_states (inner sample_shape epsilon score) x0 ks states /\
    Forall (fun x => shape x = D) states.
Proof.
  revert x0. induction ks as [|k ks IH]; intros x0 Hx0.
  - exists [x0]. split; repeat constructor; assumption.
  - destruct (score_same_shape x0 Hx0) as (g & Hg & Hgs).
    pose proof (inner_same_shape sample_shape epsilon score x0 k D g
                  sample_dims Hx0 Hg Hgs) as Hstep.
    match type of Hstep with _ = Ok (?x', _) =>
      destruct (IH x' eq_refl) as (rest & Hrest & Hall)
    end.
    exists (x0 :: rest). split.
    + econstructor; eassumption.
    + constructor; assumption.
Qed.

(** Under these assumptions the scan returns, and what it returns is a
    run of the chain's states, all of shape [D]. *)
Lemma lax_scan_inner_returns (ks : list Key) (x0 : ndarray) :
  shape x0 = D ->
  exists xT ys,
    lax_scan (inner sample_shape epsilon score) x0 ks = Ok (xT, ys) /\
    chain_states (inner sample_shape epsilon score) x0 ks (ys ++ [xT]) /\
    Forall (fun x => shape x = D) (ys ++ [xT]) /\
    length ys = length ks.
Proof.
  intros Hx0.
  destruct (inner_chain_exists ks x0 Hx0) as (states & Hst & Hall).
  assert (Hscan := states_lax_scan _ _ _ _ Hst).
  rewrite Hx0 in Hscan. specialize (Hscan Hall).
  exists (last states x0), (removelast states).
  assert (Hst' := Hscan).
  eapply lax_scan_states in Hst' as (Hst' & Hall');
    [|apply inner_records_prev].
  rewrite Hx0 in Hall'.
  repeat split; try assumption.
  apply chain_states_length in Hst'. rewrite length_app in Hst'. simpl in Hst'. lia.
Qed.

(** With at least one step the chain returns, and its outputs have the
    shapes of a sample and of the stacked trajectory. *)
Lemma one_chain_returns (n_samples : nat) (x0 : ndarray) (key : Key) :
  shape x0 = D ->
  0 < n_samples ->
  exists xT traj : ndarray,
    langevin_dynamics_one_chain sample_shape epsilon score n_samples x0 key
      = Ok (xT, traj) /\
    shape xT = D /\
    shape traj = vstack_shape n_samples D.
Proof.
  intros Hx0 HT.
  destruct (lax_scan_inner_returns (random_split key n_samples) x0 Hx0)
    as (xT & ys & Hscan & _ & Hall & Hlen).
  rewrite random_split_length in Hlen.
  apply Forall_app in Hall as (Hys & HxT).
  assert (Hne : ys <> []) by (destruct ys; simpl in Hlen; [lia | discriminate]).
  exists xT. eexists.
  unfold langevin_dynamics_one_chain. rewrite Hscan. cbn [bind].
  rewrite (vstack_same_shape _ _ Hne Hys). cbn [bind shape].
  split; [reflexivity|]. split; [now inversion HxT | now rewrite Hlen].
Qed.

(** With no step at all there is nothing to stack, and the chain raises. *)
Lemma one_chain_no_samples (x0 : ndarray) (key : Key) :
  langevin_dynamics_one_chain sample_shape epsilon score 0 x0 key
    = Raise (ValueError "Need at least one array to concatenate.").
Proof. reflexivity. Qed.

End Trajectory.

(** ** A score that is zero everywhere

    Floating-point addition of a zero is not the identity on bit patterns
    ([-0.0 + 0.0] is [+0.0]), so the states of the zero-score chain are
    compared with the random walk by a relation [same] on scalars, read as
    equality of values: the two zeros compare equal.  The one law used,
    [drift_vanishes], is that adding [epsilon * 0] to the left summand of
    a sum does not change the value of the sum; IEEE arithmetic has it for
    every finite [epsilon]. *)

Section RandomWalk.
Context {FO : FloatOps} {RNG : PRNG FO}.

Variable sample_shape : list (option nat).
Variable epsilon : F.
Variable score : ndarray -> score_result.
Variable D : list nat.
Variable same : F -> F -> Prop.

Hypothesis sample_dims : dims_of (tl sample_shape) = Ok D.

Hypothesis zero_everywhere : forall x, score x = Returns (zeros (shape x)).

Hypothesis drift_vanishes :
  forall v w : F, same (fadd (fadd v (fmul epsilon fzero)) w) (fadd v w).

Lemma map3_zero_drift (xs zs : list F) (n : nat) :
  length zs <= n ->
  Forall2 same
    (map3 (langevin_update epsilon) xs (repeat fzero n) zs)
    (zip_with (random_walk_update epsilon) xs zs).
Proof.
  revert zs n. induction xs as [|x xs IH]; intros zs n Hn.
  - constructor.
  - destruct zs as [|z zs].
    + destruct n; constructor.
    + destruct n as [|n]; [simpl in Hn; lia|].
      cbn [repeat map3]. unfold zip_with. cbn [combine map fst snd].
      constructor.
      * unfold langevin_update, random_walk_update. apply drift_vanishes.
      * apply IH. simpl in Hn. lia.
Qed.

(** One step of the zero-score chain, entry by entry. *)
Lemma inner_zero_score (x : ndarray) (k : Key) (x' y : ndarray) :
  shape x = D ->
  inner sample_shape epsilon score x k = Ok (x', y) ->
  y = x /\
  shape x' = D /\
  Forall2 same (data x')
    (zip_with (random_walk_update epsilon) (data x)
       (map (normal_entry k D) (seq 0 (size D)))).
Proof.
  intros Hx H.
  rewrite (inner_same_shape sample_shape epsilon score x k D (zeros (shape x))
             sample_dims Hx (zero_everywhere x) Hx) in H.
  injection H as <- <-. split; [reflexivity|]. split; [reflexivity|].
  cbn [data zeros random_normal]. rewrite Hx.
  apply map3_zero_drift. now rewrite length_map, length_seq.
Qed.

(** C7.  With a score function that returns zeros for every input and a
    fixed [epsilon]: when the scan of one chain over its [n_samples] keys
    returns, it has recorded [n_samples] states, and every state [x'] that
    follows a recorded state [x] (the next recorded state, or the final
    state after the last one) has the sample shape and, entry by entry,
    the value of [x + sqrt(2 * epsilon) * z], with [z] the noise draw made
    with the key of that step. *)
Theorem zero_score_random_walk
    (n_samples : nat) (x0 : ndarray) (key : Key)
    (xT : ndarray) (ys : list ndarray) :
  shape x0 = D ->
  lax_scan (inner sample_shape epsilon score) x0 (random_split key n_samples)
    = Ok (xT, ys) ->
  length ys = n_samples /\
  forall (t : nat) (x x' : ndarray),
    nth_error (ys ++ [xT]) t = Some x ->
    nth_error (ys ++ [xT]) (S t) = Some x' ->
    shape x' = D /\
    Forall2 same (data x')
      (zip_with (random_walk_update epsilon) (data x)
         (data (random_normal (subkey key n_samples t) D))).
Proof.
  intros Hx0 Hscan.
  eapply lax_scan_states in Hscan as (Hst & Hall); [|apply inner_records_prev].
  assert (Hlen := chain_states_length _ _ _ _ Hst).
  rewrite length_app, random_split_length in Hlen. simpl in Hlen.
  split; [lia|].
  intros t x x' Ht HSt.
  assert (Hlt : t < n_samples).
  { assert (Hb : S t < length (ys ++ [xT]))
      by (apply nth_error_Some; rewrite HSt; discriminate).
    rewrite length_app in Hb. simpl in Hb. lia. }
  destruct (chain_states_nth _ _ _ _ t _ Hst (random_split_nth key n_samples t Hlt))
    as (a & a' & Ha & Ha' & Hstep).
  rewrite Ht in Ha. injection Ha as <-.
  rewrite HSt in Ha'. injection Ha' as <-.
  assert (Hxs : shape x = D).
  { rewrite Forall_forall in Hall. rewrite <- Hx0. apply Hall.
    eapply nth_error_In; exact Ht. }
  destruct (inner_zero_score x _ x' x Hxs Hstep) as (_ & Hs & Hd).
  split; [exact Hs | exact Hd].
Qed.

End RandomWalk.

(** ** Configuration check *)

Section Configuration.
Context {FO : FloatOps} {RNG : PRNG FO}.
Context {Params : Type}.

Lemma bind_raise_inv {A B : Type} (m : result A) (k : A -> result B) (e : exn) :
  bind m k = Raise e -> m = Raise e \/ exists a, m = Ok a /\ k a = Raise e.
Proof.
  destruct m as [a|e']; simpl; intros H; [right; eauto | left; congruence].
Qed.

(** [e] is not the exception of the configuration check. *)
Abbreviation other e := (e <> ValueError both_None_msg).

Ltac split_raise H :=
  repeat match type of H with
    | bind _ _ = Raise _ =>
        let a := fresh "a" in
        let Ha := fresh "Ha" in
        apply bind_raise_inv in H as [H | (a & Ha & H)]
    | (let (_, _) := ?p in _) = Raise _ => destruct p
    end.

Lemma dims_of_raises_other (t : list (option nat)) (e : exn) :
  dims_of t = Raise e -> other e.
Proof.
  induction t as [|[d|] t IH]; simpl; intros H.
  - discriminate.
  - apply bind_raise_inv in H as [H | (a & _ & H)]; [auto | discriminate].
  - injection H as <-. discriminate.
Qed.

Lemma add_raises_other (a b : ndarray) (e : exn) :
  add a b = Raise e -> other e.
Proof.
  unfold add. destruct (broadcast_shapes _ _); intros H;
    [discriminate | injection H as <-; discriminate].
Qed.

Lemma call_raises_other (r : score_result) (e : exn) :
  call r = Raise e -> other e.
Proof. destruct r; simpl; intros H; [discriminate | injection H as <-; discriminate]. Qed.

Lemma inner_raises_other sample_shape epsilon score prev_x (key : Key) (e : exn) :
  inner sample_shape epsilon score prev_x key = Raise e -> other e.
Proof.
  unfold inner. intros H. split_raise H.
  - eapply dims_of_raises_other; eassumption.
  - eapply call_raises_other; eassumption.
  - eapply add_raises_other; eassumption.
  - eapply add_raises_other; eassumption.
  - discriminate.
Qed.

Lemma lax_scan_raises_other
    (f : ndarray -> Key -> result (ndarray * ndarray)) x0 ks (e : exn) :
  (forall c k e', f c k = Raise e' -> other e') ->
  lax_scan f x0 ks = Raise e -> other e.
Proof.
  intros Hf. unfold lax_scan. revert x0.
  induction ks as [|k ks IH]; simpl; intros x0 H; [discriminate|].
  apply bind_raise_inv in H as [H | ([c y] & _ & H)].
  - unfold carry_checked in H.
    apply bind_raise_inv in H as [H | ([c y] & _ & H)]; [eauto|].
    destruct (shape_eqb _ _); [discriminate | injection H as <-; discriminate].
  - apply bind_raise_inv in H as [H | ([c' ys] & _ & H)]; [eauto | discriminate].
Qed.

Lemma vstack_raises_other (xs : list ndarray) (e : exn) :
  vstack xs = Raise e -> other e.
Proof.
  unfold vstack, concatenate0. destruct (map atleast_2d xs) as [|a l]; intros H.
  - injection H as <-. discriminate.
  - destruct (forallb _ _); [discriminate | injection H as <-; discriminate].
Qed.

Lemma stack_raises_other (l : list ndarray) (e : exn) :
  stack l = Raise e -> other e.
Proof.
  unfold stack. destruct l as [|a l]; intros H; [discriminate|].
  destruct (same_shapes _ _); [discriminate | injection H as <-; discriminate].
Qed.

Lemma one_chain_raises_other sample_shape epsilon score n_samples x (key : Key) e :
  langevin_dynamics_one_chain sample_shape epsilon score n_samples x key = Raise e ->
  other e.
Proof.
  unfold langevin_dynamics_one_chain. intros H.
  apply bind_raise_inv in H as [H | ([xT ys] & _ & H)].
  - eapply lax_scan_raises_other; [|exact H].
    intros c k e'. apply inner_raises_other.
  - apply bind_raise_inv in H as [H | (v & _ & H)]; [|discriminate].
    eapply vstack_raises_other; eassumption.
Qed.

Lemma mapM_raises {A B : Type} (f : A -> result B) (l : list A) (e : exn) :
  mapM f l = Raise e -> exists a, In a l /\ f a = Raise e.
Proof.
  induction l as [|a l IH]; simpl; intros H; [discriminate|].
  apply bind_raise_inv in H as [H | (b & _ & H)]; [eauto|].
  apply bind_raise_inv in H as [H | (bs & _ & H)]; [|discriminate].
  destruct (IH H) as (a' & Hin & Ha'). eauto.
Qed.

Lemma vmap_raises_other
    (f : ndarray -> Key -> result (ndarray * ndarray)) xs keys (e : exn) :
  (forall x k e', f x k = Raise e' -> other e') ->
  vmap f xs keys = Raise e -> other e.
Proof.
  intros Hf. unfold vmap. intros H.
  apply bind_raise_inv in H as [H | (rows & _ & H)].
  - unfold unstack in H. destruct (shape xs); [|discriminate].
    injection H as <-. discriminate.
  - destruct (_ =? _); [|injection H as <-; discriminate].
    apply bind_raise_inv in H as [H | (outs & _ & H)].
    + apply mapM_raises in H as ([x k] & _ & H). eauto.
    + apply bind_raise_inv in H as [H | (a & _ & H)];
        [eapply stack_raises_other; eassumption|].
      apply bind_raise_inv in H as [H | (b & _ & H)];
        [eapply stack_raises_other; eassumption | discriminate].
Qed.

(** C3.  The call raises the exception of the configuration check
    exactly when [starter_xs] and [sample_shape] are both [None]; it does
    so whatever the other arguments are, a score function that always
    fails included, and returns no output then. *)
Theorem both_None_raises
    (n_chains n_samples : nat) (key : Key) (epsilon : F)
    (score_func : Params -> ndarray -> score_result) (params : Params)
    (init_scale : F) (starter_xs : option ndarray)
    (sample_shape : option (list (option nat))) :
  langevin_dynamics n_chains n_samples key epsilon score_func params
    init_scale starter_xs sample_shape
    = Raise (ValueError both_None_msg)
  <-> starter_xs = None /\ sample_shape = None.
Proof.
  split.
  - intros H. destruct starter_xs as [B|], sample_shape as [t|];
      [exfalso | exfalso | exfalso | tauto];
      unfold langevin_dynamics in H; cbn [is_None andb bind] in H.
    + apply bind_raise_inv in H as [H | ([fs ss] & _ & H)]; [|discriminate].
      apply vmap_raises_other in H; [congruence|].
      intros x k e'. apply one_chain_raises_other.
    + apply bind_raise_inv in H as [H | ([fs ss] & _ & H)]; [|discriminate].
      apply vmap_raises_other in H; [congruence|].
      intros x k e'. apply one_chain_raises_other.
    + apply bind_raise_inv in H as [H | (xs & _ & H)].
      * apply bind_raise_inv in H as [H | (D & _ & H)]; [|discriminate].
        apply dims_of_raises_other in H. congruence.
      * apply bind_raise_inv in H as [H | ([fs ss] & _ & H)]; [|discriminate].
        apply vmap_raises_other in H; [congruence|].
        intros x k e'. apply one_chain_raises_other.
  - intros [-> ->]. reflexivity.
Qed.

End Configuration.

(** ** Determinism *)

Section Determinism.
Context {FO : FloatOps} {RNG : PRNG FO}.
Context {Params : Type}.

Lemma scan_loop_ext (f g : ndarray -> Key -> result (ndarray * ndarray))
    (x0 : ndarray) (ks : list Key) :
  (forall c k, f c k = g c k) -> scan_loop f x0 ks = scan_loop g x0 ks.
Proof.
  intros Hfg. revert x0. induction ks as [|k ks IH]; intros x0; simpl;
    [reflexivity|].
  rewrite Hfg. destruct (g x0 k) as [[c y]|e]; simpl; [|reflexivity].
  now rewrite IH.
Qed.

Lemma inner_ext sample_shape epsilon (score score' : ndarray -> score_result)
    (prev_x : ndarray) (key : Key) :
  (forall x, score x = score' x) ->
  inner sample_shape epsilon score prev_x key
    = inner sample_shape epsilon score' prev_x key.
Proof. intros H. unfold inner. now rewrite H. Qed.

Lemma one_chain_ext sample_shape epsilon (score score' : ndarray -> score_result)
    n_samples (x : ndarray) (key : Key) :
  (forall x, score x = score' x) ->
  langevin_dynamics_one_chain sample_shape epsilon score n_samples x key
    = langevin_dynamics_one_chain sample_shape epsilon score' n_samples x key.
Proof.
  intros H. unfold langevin_dynamics_one_chain, lax_scan.
  assert (E : scan_loop (carry_checked (inner sample_shape epsilon score))
                x (random_split key n_samples)
              = scan_loop (carry_checked (inner sample_shape epsilon score'))
                  x (random_split key n_samples)).
  { apply scan_loop_ext. intros c k. unfold carry_checked.
    f_equal. now apply inner_ext. }
  now rewrite E.
Qed.

Lemma vmap_ext (f g : ndarray -> Key -> result (ndarray * ndarray))
    (xs : ndarray) (keys : list Key) :
  (forall x k, f x k = g x k) -> vmap f xs keys = vmap g xs keys.
Proof.
  intros Hfg. unfold vmap. destruct (unstack xs) as [rows|e]; simpl;
    [|reflexivity].
  destruct (_ =? _); [|reflexivity].
  assert (E : mapM (fun xk => f (fst xk) (snd xk)) (combine rows keys)
              = mapM (fun xk => g (fst xk) (snd xk)) (combine rows keys)).
  { apply mapM_ext. intros [x k] _. apply Hfg. }
  now rewrite E.
Qed.

(** C4.  Two invocations on the same arguments, in which the score
    function gives the same answer to the same question, return the same
    [(starting_batch, final_samples, samples)], or raise the same
    exception. *)
Theorem langevin_dynamics_deterministic
    (n_chains n_samples : nat) (key : Key) (epsilon : F)
    (score_func score_func' : Params -> ndarray -> score_result)
    (params : Params) (init_scale : F) (starter_xs : option ndarray)
    (sample_shape : option (list (option nat))) :
  (forall x, score_func params x = score_func' params x) ->
  langevin_dynamics n_chains n_samples key epsilon score_func params
    init_scale starter_xs sample_shape
  = langevin_dynamics n_chains n_samples key epsilon score_func' params
      init_scale starter_xs sample_shape.
Proof.
  intros Hscore. unfold langevin_dynamics.
  destruct (if is_None starter_xs && is_None sample_shape
            then Raise (ValueError both_None_msg) else Ok tt);
    cbn [bind]; [|reflexivity].
  match goal with |- bind ?m _ = _ => destruct m as [t|e] end;
    cbn [bind]; [|reflexivity].
  match goal with |- bind ?m _ = _ => destruct m as [B|e] end;
    cbn [bind]; [|reflexivity].
  assert (E : vmap (langevin_dynamics_one_chain t epsilon (score_func params)
                      n_samples) B (random_split key n_chains)
              = vmap (langevin_dynamics_one_chain t epsilon (score_func' params)
                        n_samples) B (random_split key n_chains)).
  { apply vmap_ext. intros x k. now apply one_chain_ext. }
  now rewrite E.
Qed.

End Determinism.

(** ** The Chain Initializer *)

Section Initializer.
Context {FO : FloatOps} {RNG : PRNG FO}.
Context {Params : Type}.

Variables (n_chains n_samples : nat) (key : Key) (epsilon : F).
Variable score_func : Params -> ndarray -> score_result.
Variables (params : Params) (init_scale : F).

(** The call with a supplied starting batch [B]. *)
Lemma langevin_dynamics_supplied (B : ndarray)
    (sample_shape : option (list (option nat))) :
  langevin_dynamics n_chains n_samples key epsilon score_func params
    init_scale (Some B) sample_shape
  = ('(final_samples, samples) <-
       vmap (langevin_dynamics_one_chain
               match sample_shape with
               | Some t => t
               | None => None :: map Some (tl (shape B))
               end epsilon (score_func params) n_samples)
         B (random_split key n_chains) ;;
     Ok (B, final_samples, samples)).
Proof. unfold langevin_dynamics. destruct sample_shape; reflexivity. Qed.

(** The call without a starting batch. *)
Lemma langevin_dynamics_drawn (t : list (option nat)) (D : list nat) :
  dims_of (tl t) = Ok D ->
  langevin_dynamics n_chains n_samples key epsilon score_func params
    init_scale None (Some t)
  = (let B := smul_r (random_normal key (n_chains :: D)) init_scale in
     '(final_samples, samples) <-
       vmap (langevin_dynamics_one_chain t epsilon (score_func params) n_samples)
         B (random_split key n_chains) ;;
     Ok (B, final_samples, samples)).
Proof.
  intros HD. unfold langevin_dynamics. cbn [is_None andb bind dims_of].
  rewrite HD. reflexivity.
Qed.

Lemma chunks_length (n sz : nat) (d : list F) : length (chunks n sz d) = n.
Proof. revert d. induction n as [|n IH]; intros d; simpl; [|rewrite IH]; reflexivity. Qed.

(** [vmap] refuses a batch whose leading axis does not have one entry
    per key. *)
Lemma vmap_inconsistent_sizes
    (f : ndarray -> Key -> result (ndarray * ndarray))
    (xs : ndarray) (keys : list Key) :
  hd_error (shape xs) <> Some (length keys) ->
  vmap f xs keys
  = Raise (ValueError
      match shape xs with
      | [] => "vmap was requested to map its argument along axis 0, which implies that its rank should be at least 1, but is only 0"
      | _ :: _ => "vmap got inconsistent sizes for array axes to be mapped"
      end).
Proof.
  intros Hn. unfold vmap, unstack. destruct (shape xs) as [|n D]; [reflexivity|].
  cbn [bind]. rewrite length_map, chunks_length.
  destruct (Nat.eqb_spec n (length keys)) as [->|_]; [|reflexivity].
  now destruct Hn.
Qed.

(** C6.  A supplied [starter_xs] is the starting batch that is returned,
    unchanged; [init_scale] has no influence on the call; and the
    top-level key has none beyond the per-chain keys split from it, so
    nothing is drawn from it for the initialization. *)
Theorem supplied_starter_xs_unchanged (B : ndarray)
    (sample_shape : option (list (option nat))) :
  (forall starting_batch final_samples samples,
      langevin_dynamics n_chains n_samples key epsilon score_func params
        init_scale (Some B) sample_shape
      = Ok (starting_batch, final_samples, samples) ->
      starting_batch = B)
  /\ (forall init_scale' : F,
      langevin_dynamics n_chains n_samples key epsilon score_func params
        init_scale' (Some B) sample_shape
      = langevin_dynamics n_chains n_samples key epsilon score_func params
          init_scale (Some B) sample_shape)
  /\ (forall key' : Key,
      random_split key' n_chains = random_split key n_chains ->
      langevin_dynamics n_chains n_samples key' epsilon score_func params
        init_scale (Some B) sample_shape
      = langevin_dynamics n_chains n_samples key epsilon score_func params
          init_scale (Some B) sample_shape).
Proof.
  split; [|split].
  - intros sb fs ss H. rewrite langevin_dynamics_supplied in H.
    apply bind_ok_inv in H as ([fs' ss'] & _ & H). now injection H as <- _ _.
  - intros init_scale'. unfold langevin_dynamics.
    destruct sample_shape; reflexivity.
  - intros key' Hsplit. unfold langevin_dynamics.
    destruct sample_shape; cbn [is_None andb bind]; now rewrite Hsplit.
Qed.

(** C9.  A supplied [starter_xs] whose leading dimension is not
    [n_chains] produces no run: the call raises, from [vmap], before any
    chain is started.  Nothing else about the shape of [starter_xs] is
    examined at that point. *)
Theorem supplied_starter_xs_leading_dim (B : ndarray)
    (sample_shape : option (list (option nat))) :
  hd_error (shape B) <> Some n_chains ->
  langevin_dynamics n_chains n_samples key epsilon score_func params
    init_scale (Some B) sample_shape
  = Raise (ValueError
      match shape B with
      | [] => "vmap was requested to map its argument along axis 0, which implies that its rank should be at least 1, but is only 0"
      | _ :: _ => "vmap got inconsistent sizes for array axes to be mapped"
      end).
Proof.
  intros Hn. rewrite langevin_dynamics_supplied.
  rewrite vmap_inconsistent_sizes; [reflexivity|].
  now rewrite random_split_length.
Qed.

(** C10.  Without [starter_xs], the starting batch is the draw taken from
    [key] itself, entry by entry times [init_scale], and the per-chain
    keys are the split of that same [key]. *)
Theorem drawn_starting_batch_reuses_key (t : list (option nat)) (D : list nat) :
  dims_of (tl t) = Ok D ->
  langevin_dynamics n_chains n_samples key epsilon score_func params
    init_scale None (Some t)
  = (let B := mk_ndarray (n_chains :: D)
                (map (fun j => fmul (normal_entry key (n_chains :: D) j) init_scale)
                   (seq 0 (n_chains * size D))) in
     '(final_samples, samples) <-
       vmap (langevin_dynamics_one_chain t epsilon (score_func params) n_samples)
         B (map (subkey key n_chains) (seq 0 n_chains)) ;;
     Ok (B, final_samples, samples)).
Proof.
  intros HD. rewrite (langevin_dynamics_drawn t D HD).
  unfold smul_r, random_normal, random_split. cbn [shape data size fold_right].
  now rewrite map_map.
Qed.

End Initializer.

(** ** Shapes of the outputs *)

Section Shapes.
Context {FO : FloatOps} {RNG : PRNG FO}.
Context {Params : Type}.

Lemma one_chain_shapes sample_shape epsilon score n_samples
    (x : ndarray) (key : Key) (final_xs samples : ndarray) :
  langevin_dynamics_one_chain sample_shape epsilon score n_samples x key
    = Ok (final_xs, samples) ->
  shape final_xs = shape x /\
  shape samples = vstack_shape n_samples (shape x).
Proof.
  unfold langevin_dynamics_one_chain. intros H.
  apply bind_ok_inv in H as ([xT ys] & Hscan & H).
  apply bind_ok_inv in H as (v & Hv & H). injection H as <- <-.
  eapply lax_scan_states in Hscan as (Hst & Hall);
    [|apply inner_records_prev].
  apply chain_states_length in Hst.
  rewrite length_app, random_split_length in Hst. simpl in Hst.
  apply Forall_app in Hall as (Hys & HxT).
  split; [now inversion HxT|].
  destruct ys as [|y ys]; [discriminate|].
  rewrite (vstack_same_shape _ (shape x)) in Hv by (congruence || assumption).
  injection Hv as <-. simpl. f_equal. simpl in Hst. lia.
Qed.

Lemma unstack_ok (a : ndarray) (rows : list ndarray) :
  unstack a = Ok rows ->
  exists n D,
    shape a = n :: D /\ length rows = n /\
    Forall (fun r => shape r = D) rows.
Proof.
  unfold unstack. destruct (shape a) as [|n D]; [discriminate|].
  intros H. injection H as <-. exists n, D.
  split; [reflexivity|]. split.
  - now rewrite length_map, chunks_length.
  - apply Forall_map. apply Forall_forall. reflexivity.
Qed.

Lemma Forall2_Forall_r {A B : Type} (R : A -> B -> Prop)
    (Q : A -> Prop) (P : B -> Prop) (l : list A) (l' : list B) :
  (forall a b, Q a -> R a b -> P b) ->
  Forall2 R l l' -> Forall Q l -> Forall P l'.
Proof.
  intros HP. induction 1 as [|a b l l' Hab _ IH]; intros HQ; constructor;
    inversion HQ; subst; eauto.
Qed.

(** The outputs of [vmap] over at least one row, for a mapped function
    whose output shapes are [D] and [V D] on a row of shape [D]. *)
Lemma vmap_shapes (f : ndarray -> Key -> result (ndarray * ndarray))
    (V : list nat -> list nat) (xs : ndarray) (keys : list Key)
    (finals trajs : ndarray) :
  (forall x k a b, f x k = Ok (a, b) -> shape a = shape x /\ shape b = V (shape x)) ->
  keys <> [] ->
  vmap f xs keys = Ok (finals, trajs) ->
  exists D,
    shape xs = length keys :: D /\
    shape finals = length keys :: D /\
    shape trajs = length keys :: V D.
Proof.
  intros Hf Hne. unfold vmap. intros H.
  apply bind_ok_inv in H as (rows & Hrows & H).
  apply unstack_ok in Hrows as (n & D & Hxs & Hlen & Hall).
  destruct (Nat.eqb_spec (length rows) (length keys)) as [Heq|]; [|discriminate].
  apply bind_ok_inv in H as (outs & Houts & H).
  apply bind_ok_inv in H as (a & Ha & H).
  apply bind_ok_inv in H as (b & Hb & H). injection H as <- <-.
  apply mapM_ok_Forall2 in Houts.
  assert (Hn : length outs = length keys).
  { rewrite <- (Forall2_length Houts), length_combine. lia. }
  assert (Hin : Forall (fun xk : ndarray * Key => shape (fst xk) = D)
                  (combine rows keys)).
  { apply Forall_forall. intros [x k] Hxk. apply in_combine_l in Hxk.
    rewrite Forall_forall in Hall. now apply Hall. }
  assert (Hshapes : Forall (fun o : ndarray * ndarray =>
                              shape (fst o) = D /\ shape (snd o) = V D) outs).
  { eapply Forall2_Forall_r; [|exact Houts|exact Hin].
    intros [x k] [o1 o2] Hx Ho. simpl in *.
    apply Hf in Ho. rewrite Hx in Ho. exact Ho. }
  assert (Houts_ne : outs <> []).
  { destruct outs; [|discriminate]. destruct keys; [congruence | discriminate]. }
  exists D. split; [congruence|].
  rewrite (stack_same_shape _ D) in Ha.
  - rewrite (stack_same_shape _ (V D)) in Hb.
    + injection Ha as <-. injection Hb as <-. simpl.
      rewrite !length_map, Hn. auto.
    + destruct outs; simpl; congruence.
    + apply Forall_map. eapply Forall_impl; [|exact Hshapes].
      intros o [_ Ho]. exact Ho.
  - destruct outs; simpl; congruence.
  - apply Forall_map. eapply Forall_impl; [|exact Hshapes].
    intros o [Ho _]. exact Ho.
Qed.

(** X13.  On a call that returns, with at least one chain, and with [D]
    the shape of one sample (the trailing axes of [starter_xs] when it is
    supplied, of [sample_shape] otherwise): [starting_batch] and
    [final_samples] have shape [(n_chains, *D)], and [samples] has shape
    [(n_chains, *V)] with [V] the shape [np.vstack] gives to [n_samples]
    samples of shape [D].  That is [(n_chains, n_samples, *D)] when [D]
    has one axis, [(n_chains, n_samples, 1)] for scalar samples, and
    [(n_chains, n_samples * D[0], *D[1:])] when [D] has several axes. *)
Theorem output_shapes
    (n_chains n_samples : nat) (key : Key) (epsilon : F)
    (score_func : Params -> ndarray -> score_result) (params : Params)
    (init_scale : F) (starter_xs : option ndarray)
    (sample_shape : option (list (option nat)))
    (starting_batch final_samples samples : ndarray) :
  0 < n_chains ->
  langevin_dynamics n_chains n_samples key epsilon score_func params
    init_scale starter_xs sample_shape
    = Ok (starting_batch, final_samples, samples) ->
  exists D : list nat,
    match starter_xs, sample_shape with
    | Some B, _ => D = tl (shape B)
    | None, Some t => dims_of (tl t) = Ok D
    | None, None => False
    end /\
    shape starting_batch = n_chains :: D /\
    shape final_samples = n_chains :: D /\
    shape samples = n_chains :: vstack_shape n_samples D /\
    (forall d, D = [d] -> shape samples = n_chains :: n_samples :: D) /\
    (D = [] -> shape samples = [n_chains; n_samples; 1]) /\
    (forall a b rest, D = a :: b :: rest ->
       shape samples = n_chains :: n_samples * a :: b :: rest).
Proof.
  intros Hn H.
  assert (Hkeys : random_split key n_chains <> []).
  { intros E. apply (f_equal (@length _)) in E.
    rewrite random_split_length in E. simpl in E. lia. }
  assert (Hcases : forall D,
    shape samples = n_chains :: vstack_shape n_samples D ->
    (forall d, D = [d] -> shape samples = n_chains :: n_samples :: D) /\
    (D = [] -> shape samples = [n_chains; n_samples; 1]) /\
    (forall a b rest, D = a :: b :: rest ->
       shape samples = n_chains :: n_samples * a :: b :: rest)).
  { intros D0 HV. repeat split; intros; subst D0; exact HV. }
  destruct starter_xs as [B|].
  - rewrite langevin_dynamics_supplied in H.
    apply bind_ok_inv in H as ([fs ss] & Hv & H). injection H as <- <- <-.
    eapply vmap_shapes with (V := vstack_shape n_samples) in Hv as (D & HB & Hfs & Hss);
      [| intros x k a b; apply one_chain_shapes | exact Hkeys].
    rewrite random_split_length in *.
    exists D. rewrite HB. simpl. auto 10.
  - destruct sample_shape as [t|]; [|discriminate].
    unfold langevin_dynamics in H. cbn [is_None andb bind dims_of] in H.
    apply bind_ok_inv in H as (B & HB & H).
    apply bind_ok_inv in HB as (D0 & HD0 & HB).
    apply bind_ok_inv in HD0 as (D & HD & HD0).
    injection HD0 as <-. injection HB as <-.
    apply bind_ok_inv in H as ([fs ss] & Hv & H). injection H as <- <- <-.
    eapply vmap_shapes with (V := vstack_shape n_samples) in Hv as (D' & HB & Hfs & Hss);
      [| intros x k a b; apply one_chain_shapes | exact Hkeys].
    rewrite random_split_length in *. simpl in HB. injection HB as <-.
    exists D. simpl. auto 10.
Qed.

End Shapes.

(** ** Well-formed arrays

    An array is well formed when its buffer has as many entries as its
    shape says.  Broadcasting addition, scaling, drawing and stacking
    keep arrays well formed. *)

Section WellFormed.
Context {FO : FloatOps} {RNG : PRNG FO}.

Lemma chunks_lengths (n sz : nat) (d : list F) :
  length d = n * sz -> Forall (fun c => length c = sz) (chunks n sz d).
Proof.
  revert d. induction n as [|n IH]; intros d Hd; simpl; constructor.
  - rewrite length_firstn. simpl in Hd. lia.
  - apply IH. rewrite length_skipn. simpl in Hd. lia.
Qed.

Lemma length_concat_const {A : Type} (l : list (list A)) (k : nat) :
  Forall (fun c => length c = k) l -> length (concat l) = length l * k.
Proof.
  induction 1 as [|c l Hc _ IH]; simpl; [reflexivity|].
  now rewrite length_app, Hc, IH.
Qed.

(** Stretching a buffer along axes of length one gives a buffer of the
    target size. *)
Lemma expand_length (from to : list nat) (d : list F) :
  Forall2 (fun m n => m = n \/ m = 1) from to ->
  length d = size from ->
  length (expand from to d) = size to.
Proof.
  intros H. revert d.
  induction H as [|m n from to Hmn _ IH]; intros d Hd; [exact Hd|].
  cbn [expand]. simpl in Hd.
  assert (Hcs : Forall (fun c => length c = size to)
                  (map (expand from to) (chunks m (size from) d))).
  { apply Forall_map. eapply Forall_impl; [|apply chunks_lengths; exact Hd].
    intros c Hc. now apply IH. }
  assert (Hlen : length (concat (map (expand from to) (chunks m (size from) d)))
                 = m * size to).
  { rewrite (length_concat_const _ (size to) Hcs).
    now rewrite length_map, chunks_length. }
  destruct (Nat.eqb_spec m n) as [->|Hne].
  - rewrite Hlen. reflexivity.
  - destruct Hmn as [Hmn| ->]; [contradiction|].
    rewrite (length_concat_const _ (size to)).
    + now rewrite repeat_length.
    + apply Forall_forall. intros c Hc. apply repeat_spec in Hc. subst c.
      rewrite Hlen. lia.
Qed.

Lemma broadcast_dim_inv (m n d : nat) :
  broadcast_dim m n = Some d -> (m = d \/ m = 1) /\ (n = d \/ n = 1).
Proof.
  unfold broadcast_dim.
  destruct (Nat.eqb_spec m n); [intros H; injection H as <-; subst; auto|].
  destruct (Nat.eqb_spec m 1); [intros H; injection H as <-; auto|].
  destruct (Nat.eqb_spec n 1); [intros H; injection H as <-; auto|].
  discriminate.
Qed.

Lemma Forall2_ones (r : list nat) :
  Forall2 (fun m n => m = n \/ m = 1) (repeat 1 (length r)) r.
Proof. induction r; simpl; constructor; auto. Qed.

Lemma Forall2_same (r : list nat) :
  Forall2 (fun m n : nat => m = n \/ m = 1) r r.
Proof. induction r; constructor; auto. Qed.

Lemma broadcast_rev_compatible (r1 r2 r : list nat) :
  broadcast_rev r1 r2 = Some r ->
  Forall2 (fun m n => m = n \/ m = 1) (r1 ++ repeat 1 (length r - length r1)) r /\
  Forall2 (fun m n => m = n \/ m = 1) (r2 ++ repeat 1 (length r - length r2)) r.
Proof.
  revert r2 r. induction r1 as [|m r1 IH]; intros r2 r H.
  - simpl in H. injection H as <-. simpl. rewrite Nat.sub_0_r, Nat.sub_diag.
    simpl. rewrite app_nil_r. split; [apply Forall2_ones | apply Forall2_same].
  - destruct r2 as [|n r2].
    + simpl in H. injection H as <-. rewrite Nat.sub_diag. simpl.
      rewrite app_nil_r. split; [apply Forall2_same|].
      constructor; [auto | apply Forall2_ones].
    + simpl in H.
      destruct (broadcast_dim m n) as [d|] eqn:Hd; [|discriminate].
      destruct (broadcast_rev r1 r2) as [r'|] eqn:Hr; [|discriminate].
      injection H as <-.
      apply broadcast_dim_inv in Hd as (Hm & Hn).
      destruct (IH _ _ Hr) as (H1 & H2).
      simpl. split; constructor; assumption.
Qed.

Lemma Forall2_rev_compat (l l' : list nat) :
  Forall2 (fun m n => m = n \/ m = 1) l l' ->
  Forall2 (fun m n => m = n \/ m = 1) (rev l) (rev l').
Proof.
  induction 1 as [|m n l l' Hmn _ IH]; simpl; [constructor|].
  apply Forall2_app; [exact IH | constructor; [exact Hmn | constructor]].
Qed.

Lemma size_app (s1 s2 : list nat) : size (s1 ++ s2) = size s1 * size s2.
Proof.
  unfold size. induction s1 as [|a s1 IH]; simpl; [lia|]. rewrite IH. lia.
Qed.

Lemma size_ones (k : nat) : size (repeat 1 k) = 1.
Proof. unfold size. induction k as [|k IH]; simpl; [reflexivity|]. rewrite IH. lia. Qed.

(** The shape two arrays broadcast to is one each of them can be stretched
    to, after padding with leading axes of length one. *)
Lemma broadcast_shapes_compatible (s1 s2 s : list nat) :
  broadcast_shapes s1 s2 = Some s ->
  Forall2 (fun m n => m = n \/ m = 1) (repeat 1 (length s - length s1) ++ s1) s /\
  Forall2 (fun m n => m = n \/ m = 1) (repeat 1 (length s - length s2) ++ s2) s.
Proof.
  unfold broadcast_shapes.
  destruct (broadcast_rev (rev s1) (rev s2)) as [r|] eqn:Hr; [|discriminate].
  intros H. injection H as <-.
  apply broadcast_rev_compatible in Hr as (H1 & H2).
  apply Forall2_rev_compat in H1, H2.
  rewrite rev_app_distr, rev_involutive, rev_repeat, length_rev in H1, H2.
  rewrite length_rev. split; assumption.
Qed.

Lemma broadcast_to_length (a : ndarray) (s : list nat) :
  Forall2 (fun m n => m = n \/ m = 1)
    (repeat 1 (length s - length (shape a)) ++ shape a) s ->
  wf a ->
  length (broadcast_to a s) = size s.
Proof.
  intros Hc Hwf. unfold broadcast_to.
  destruct (list_eq_dec Nat.eq_dec (shape a) s) as [<-|_]; [exact Hwf|].
  apply expand_length; [exact Hc|].
  now rewrite size_app, size_ones, Nat.mul_1_l.
Qed.

Lemma add_wf (a b c : ndarray) :
  add a b = Ok c -> wf a -> wf b -> wf c.
Proof.
  unfold add. destruct (broadcast_shapes (shape a) (shape b)) as [s|] eqn:Hs;
    [|discriminate].
  intros H Ha Hb. injection H as <-.
  apply broadcast_shapes_compatible in Hs as (H1 & H2).
  unfold wf. cbn [data shape].
  rewrite zip_with_length, (broadcast_to_length a s H1 Ha),
    (broadcast_to_length b s H2 Hb).
  apply Nat.min_id.
Qed.

Lemma smul_l_wf (c : F) (a : ndarray) : wf a -> wf (smul_l c a).
Proof. unfold wf, smul_l. simpl. now rewrite length_map. Qed.

Lemma smul_r_wf (a : ndarray) (c : F) : wf a -> wf (smul_r a c).
Proof. unfold wf, smul_r. simpl. now rewrite length_map. Qed.

Lemma random_normal_wf (key : Key) (s : list nat) : wf (random_normal key s).
Proof. unfold wf, random_normal. simpl. now rewrite length_map, length_seq. Qed.

End WellFormed.

Section WellFormedChains.
Context {FO : FloatOps} {RNG : PRNG FO}.

Lemma atleast_2d_wf (a : ndarray) : wf a -> wf (atleast_2d a).
Proof.
  unfold wf, atleast_2d. destruct (shape a) as [|d [|d' rest]] eqn:E; simpl;
    try lia.
  now rewrite E.
Qed.

Lemma atleast_2d_rank (a : ndarray) : shape (atleast_2d a) <> [].
Proof.
  unfold atleast_2d. destruct (shape a) as [|d [|d' rest]] eqn:E; simpl;
    congruence.
Qed.

Lemma concatenate0_wf (l : list ndarray) (a : ndarray) :
  concatenate0 l = Ok a ->
  Forall (fun b => wf b /\ shape b <> []) l ->
  wf a.
Proof.
  unfold concatenate0. destruct l as [|a0 l0] eqn:El; [discriminate|].
  rewrite <- El. clear El.
  destruct (forallb _ l) eqn:Hall; [|discriminate].
  intros H Hwf. injection H as <-. unfold wf. cbn [data shape size fold_right].
  fold (size (tl (shape a0))).
  rewrite forallb_forall in Hall. rewrite Forall_forall in Hwf.
  assert (Hl : forall b, In b l ->
            length (data b) = hd 0 (shape b) * size (tl (shape a0))).
  { intros b Hb. destruct (Hwf b Hb) as (Hwb & Hrank).
    specialize (Hall b Hb). apply shape_eqb_true in Hall.
    rewrite Hwb, <- Hall. destruct (shape b); [congruence | reflexivity]. }
  clear Hall Hwf. induction l as [|b l IH]; [reflexivity|].
  simpl. rewrite length_app, (Hl b) by now left.
  rewrite IH by (intros; apply Hl; now right). lia.
Qed.

Lemma vstack_wf (xs : list ndarray) (v : ndarray) :
  vstack xs = Ok v -> Forall wf xs -> wf v.
Proof.
  unfold vstack. intros H Hwf. eapply concatenate0_wf; [exact H|].
  apply Forall_map. eapply Forall_impl; [|exact Hwf].
  intros a Ha. split; [now apply atleast_2d_wf | apply atleast_2d_rank].
Qed.

End WellFormedChains.

Section Rows.
Context {FO : FloatOps}.

Lemma concat_block {A : Type} (ds : list (list A)) (sz i : nat) (c : list A) :
  Forall (fun d => length d = sz) ds ->
  nth_error ds i = Some c ->
  firstn sz (skipn (i * sz) (concat ds)) = c.
Proof.
  intros Hall. revert i. induction Hall as [|d ds Hd _ IH]; intros i Hi.
  - destruct i; discriminate.
  - destruct i as [|i]; simpl in Hi.
    + injection Hi as <-. simpl.
      rewrite firstn_app, Hd, Nat.sub_diag, firstn_O, app_nil_r.
      apply firstn_all2. lia.
    + cbn [concat]. replace (S i * sz) with (length d + i * sz) by (simpl; lia).
      rewrite skipn_app, skipn_all2 by lia.
      replace (length d + i * sz - length d) with (i * sz) by lia.
      simpl. now apply IH.
Qed.

Lemma stack_ok_inv (l : list ndarray) (s : ndarray) (a0 : ndarray) :
  stack (a0 :: l) = Ok s ->
  s = mk_ndarray (length (a0 :: l) :: shape a0) (concat (map data (a0 :: l))) /\
  Forall (fun a => shape a = shape a0) (a0 :: l).
Proof.
  unfold stack. destruct (same_shapes (shape a0) (a0 :: l)) eqn:Hs; [|discriminate].
  intros H. injection H as <-. split; [reflexivity|].
  unfold same_shapes in Hs. rewrite forallb_forall in Hs.
  apply Forall_forall. intros a Ha. now apply shape_eqb_true, Hs.
Qed.

(** Row [i] of a stack of well-formed arrays is the [i]-th of them. *)
Lemma row_stack (l : list ndarray) (s a : ndarray) (i : nat) :
  stack l = Ok s ->
  Forall wf l ->
  nth_error l i = Some a ->
  row s i = a.
Proof.
  intros Hs Hwf Hi. destruct l as [|a0 l]; [destruct i; discriminate|].
  apply stack_ok_inv in Hs as (-> & Hshapes).
  unfold row. cbn [shape tl data].
  rewrite Forall_forall in Hshapes, Hwf.
  assert (Ha : In a (a0 :: l)) by (eapply nth_error_In; exact Hi).
  rewrite (concat_block (map data (a0 :: l)) (size (shape a0)) i (data a)).
  - rewrite <- (Hshapes a Ha). destruct a; reflexivity.
  - apply Forall_map, Forall_forall. intros b Hb.
    rewrite (Hwf b Hb), (Hshapes b Hb). reflexivity.
  - rewrite nth_error_map, Hi. reflexivity.
Qed.

(** The rows of a well-formed batch are well formed. *)
Lemma row_wf (a : ndarray) (n i : nat) (D : list nat) :
  shape a = n :: D -> wf a -> i < n -> wf (row a i).
Proof.
  unfold wf, row. intros Ha Hwf Hi. rewrite Ha in *. cbn [tl shape data].
  simpl in Hwf. fold (size D) in Hwf.
  rewrite length_firstn, length_skipn, Hwf. nia.
Qed.

End Rows.

(** ** The Parallel Orchestrator *)

Section Orchestrator.
Context {FO : FloatOps} {RNG : PRNG FO}.
Context {Params : Type}.

Implicit Types (run : ndarray -> Key -> result (ndarray * ndarray)).

Lemma chunks_by_index (n sz : nat) (d : list F) :
  chunks n sz d = map (fun i => firstn sz (skipn (i * sz) d)) (seq 0 n).
Proof.
  revert d. induction n as [|n IH]; intros d; [reflexivity|].
  cbn [chunks seq map]. f_equal. rewrite IH, <- seq_shift, map_map.
  apply map_ext. intros i. rewrite skipn_skipn. do 2 f_equal. simpl. lia.
Qed.

(** The rows [vmap] maps over are the entries [a[0], a[1], ...]. *)
Lemma unstack_rows (a : ndarray) (n : nat) (D : list nat) :
  shape a = n :: D -> unstack a = Ok (map (row a) (seq 0 n)).
Proof.
  intros Ha. unfold unstack, row. rewrite Ha. cbn [tl].
  now rewrite chunks_by_index, map_map.
Qed.

Lemma mapM_map {A B C : Type} (f : B -> result C) (h : A -> B) (l : list A) :
  mapM f (map h l) = mapM (fun a => f (h a)) l.
Proof.
  induction l as [|a l IH]; simpl; [reflexivity|]. now rewrite IH.
Qed.

Lemma combine_map_same {A B C : Type} (f : A -> B) (g : A -> C) (l : list A) :
  combine (map f l) (map g l) = map (fun a => (f a, g a)) l.
Proof. induction l as [|a l IH]; simpl; [reflexivity|]. now rewrite IH. Qed.

Lemma mapM_nth {A B : Type} (f : A -> result B) (l : list A) (bs : list B)
    (i : nat) (a : A) :
  mapM f l = Ok bs -> nth_error l i = Some a ->
  exists b, nth_error bs i = Some b /\ f a = Ok b.
Proof.
  rewrite mapM_ok_Forall2. intros H. revert i.
  induction H as [|a0 b0 l bs Hab _ IH]; intros [|i] Hi; simpl in *;
    try discriminate.
  - injection Hi as <-. eauto.
  - eauto.
Qed.

(** [vmap] over a batch with one row per key: the mapped function is
    applied to the pairs [(a[i], keys[i])], in order. *)
Lemma vmap_by_index run (xs : ndarray) (key : Key) (n : nat) (D : list nat) :
  shape xs = n :: D ->
  vmap run xs (random_split key n)
  = (outs <- mapM (fun i => run (row xs i) (subkey key n i)) (seq 0 n) ;;
     finals <- stack (map fst outs) ;;
     trajs <- stack (map snd outs) ;;
     Ok (finals, trajs)).
Proof.
  intros Hxs. unfold vmap. rewrite (unstack_rows xs n D Hxs). cbn [bind].
  rewrite length_map, length_seq, random_split_length, Nat.eqb_refl.
  unfold random_split. now rewrite combine_map_same, mapM_map.
Qed.

Lemma vmap_outputs_by_index run (xs : ndarray) (key : Key) (n : nat)
    (D : list nat) (finals trajs : ndarray) :
  shape xs = n :: D ->
  vmap run xs (random_split key n) = Ok (finals, trajs) ->
  exists outs : list (ndarray * ndarray),
    length outs = n /\
    stack (map fst outs) = Ok finals /\
    stack (map snd outs) = Ok trajs /\
    forall i, i < n ->
      exists o, nth_error outs i = Some o /\
                run (row xs i) (subkey key n i) = Ok o.
Proof.
  intros Hxs H. rewrite (vmap_by_index run xs key n D Hxs) in H.
  apply bind_ok_inv in H as (outs & Houts & H).
  apply bind_ok_inv in H as (a & Ha & H).
  apply bind_ok_inv in H as (b & Hb & H). injection H as <- <-.
  exists outs. repeat split; try assumption.
  - apply mapM_ok_Forall2, Forall2_length in Houts.
    now rewrite length_seq in Houts.
  - intros i Hi.
    apply (mapM_nth _ _ _ i _ Houts). rewrite nth_error_seq.
    destruct (Nat.ltb_spec i n); [reflexivity | lia].
Qed.

Lemma vmap_ok_leading run (xs : ndarray) (keys : list Key)
    (r : ndarray * ndarray) :
  vmap run xs keys = Ok r -> exists D, shape xs = length keys :: D.
Proof.
  unfold vmap. intros H. apply bind_ok_inv in H as (rows & Hrows & H).
  apply unstack_ok in Hrows as (n & D & Hxs & Hlen & _).
  destruct (Nat.eqb_spec (length rows) (length keys)) as [Heq|]; [|discriminate].
  exists D. congruence.
Qed.

(** With well-formed inputs, row [i] of each output of [vmap] is what the
    mapped function returned on row [i] of the batch and the [i]-th key. *)
Lemma vmap_rows run (xs : ndarray) (key : Key) (n : nat) (D : list nat)
    (finals trajs : ndarray) :
  shape xs = n :: D ->
  wf xs ->
  (forall x k a b, run x k = Ok (a, b) -> wf x -> wf a /\ wf b) ->
  vmap run xs (random_split key n) = Ok (finals, trajs) ->
  forall i, i < n ->
    run (row xs i) (subkey key n i) = Ok (row finals i, row trajs i).
Proof.
  intros Hxs Hwf Hrun Hv i Hi.
  destruct (vmap_outputs_by_index run xs key n D finals trajs Hxs Hv)
    as (outs & Hlen & Hfs & Hss & Hnth).
  assert (Hall : Forall (fun o : ndarray * ndarray => wf (fst o) /\ wf (snd o)) outs).
  { apply Forall_forall. intros o Ho.
    apply In_nth_error in Ho as (j & Hj).
    assert (Hjn : j < n).
    { rewrite <- Hlen. apply nth_error_Some. congruence. }
    destruct (Hnth j Hjn) as ([a b] & Hj' & Hab).
    rewrite Hj in Hj'. injection Hj' as ->.
    apply Hrun in Hab; [exact Hab | exact (row_wf xs n j D Hxs Hwf Hjn)]. }
  destruct (Hnth i Hi) as ([a b] & Ho & Hab).
  rewrite Hab. do 2 f_equal; symmetry.
  - apply (row_stack (map fst outs) finals a i Hfs).
    + apply Forall_map. eapply Forall_impl; [|exact Hall]. intros o [H _]; exact H.
    + rewrite nth_error_map, Ho. reflexivity.
  - apply (row_stack (map snd outs) trajs b i Hss).
    + apply Forall_map. eapply Forall_impl; [|exact Hall]. intros o [_ H]; exact H.
    + rewrite nth_error_map, Ho. reflexivity.
Qed.

Section Call.
Variables (n_chains n_samples : nat) (key : Key) (epsilon : F).
Variable score_func : Params -> ndarray -> score_result.
Variables (params : Params) (init_scale : F).
Variable starter_xs : option ndarray.
Variable sample_shape : option (list (option nat)).

(** A call that returns has run [vmap] on its starting batch, which has
    one row per chain. *)
Lemma langevin_dynamics_ok_inv (starting_batch final_samples samples : ndarray) :
  langevin_dynamics n_chains n_samples key epsilon score_func params
    init_scale starter_xs sample_shape
    = Ok (starting_batch, final_samples, samples) ->
  (exists D, shape starting_batch = n_chains :: D) /\
  vmap (langevin_dynamics_one_chain
          match sample_shape with
          | Some t => t
          | None => None :: map Some (tl (shape starting_batch))
          end epsilon (score_func params) n_samples)
    starting_batch (random_split key n_chains)
    = Ok (final_samples, samples) /\
  match starter_xs with
  | Some B => starting_batch = B
  | None =>
      exists D, starting_batch
                = smul_r (random_normal key (n_chains :: D)) init_scale
  end.
Proof.
  intros H. destruct starter_xs as [B|].
  - rewrite langevin_dynamics_supplied in H.
    apply bind_ok_inv in H as ([fs ss] & Hv & H). injection H as <- <- <-.
    split; [|split; [exact Hv | reflexivity]].
    destruct (vmap_ok_leading _ _ _ _ Hv) as (D & HD).
    rewrite random_split_length in HD. eauto.
  - destruct sample_shape as [t|]; [|discriminate].
    destruct (dims_of (tl t)) as [D|e] eqn:HD.
    + rewrite (langevin_dynamics_drawn n_chains n_samples key epsilon
                 score_func params init_scale t D HD) in H.
      cbn zeta in H.
      apply bind_ok_inv in H as ([fs ss] & Hv & H). injection H as <- <- <-.
      split; [exists D; reflexivity|]. split; [exact Hv|]. exists D. reflexivity.
    + unfold langevin_dynamics in H.
      cbn [is_None andb bind dims_of] in H. rewrite HD in H. discriminate.
Qed.

End Call.

End Orchestrator.

(** ** When the call returns *)

Section Returns.
Context {FO : FloatOps} {RNG : PRNG FO}.
Context {Params : Type}.

Lemma mapM_total {A B : Type} (f : A -> result B) (P : B -> Prop) (l : list A) :
  (forall a, In a l -> exists b, f a = Ok b /\ P b) ->
  exists bs, mapM f l = Ok bs /\ Forall P bs.
Proof.
  induction l as [|a l IH]; intros H.
  - exists []. split; [reflexivity | constructor].
  - destruct (H a (or_introl eq_refl)) as (b & Hb & HP).
    destruct IH as (bs & Hbs & HPs); [intros; apply H; now right|].
    exists (b :: bs). simpl. rewrite Hb. cbn [bind]. rewrite Hbs.
    split; [reflexivity | now constructor].
Qed.

Lemma stack_total (l : list ndarray) (D : list nat) :
  Forall (fun a => shape a = D) l -> exists s, stack l = Ok s.
Proof.
  intros H. destruct l as [|a l]; [eexists; reflexivity|].
  rewrite (stack_same_shape _ D) by (congruence || assumption). eauto.
Qed.

Lemma vmap_returns (run : ndarray -> Key -> result (ndarray * ndarray))
    (xs : ndarray) (key : Key) (n : nat) (D V : list nat) :
  shape xs = n :: D ->
  (forall x k, shape x = D ->
     exists a b, run x k = Ok (a, b) /\ shape a = D /\ shape b = V) ->
  exists finals trajs, vmap run xs (random_split key n) = Ok (finals, trajs).
Proof.
  intros Hxs Hrun. rewrite (vmap_by_index run xs key n D Hxs).
  destruct (mapM_total (fun i => run (row xs i) (subkey key n i))
              (fun o => shape (fst o) = D /\ shape (snd o) = V) (seq 0 n))
    as (outs & Houts & Hall).
  { intros i _.
    destruct (Hrun (row xs i) (subkey key n i)) as (a & b & Hab & Ha & Hb).
    - unfold row. now rewrite Hxs.
    - exists (a, b). auto. }
  rewrite Houts. cbn [bind].
  destruct (stack_total (map fst outs) D) as (fs & Hfs).
  { apply Forall_map. eapply Forall_impl; [|exact Hall]. intros o [H _]; exact H. }
  destruct (stack_total (map snd outs) V) as (ss & Hss).
  { apply Forall_map. eapply Forall_impl; [|exact Hall]. intros o [_ H]; exact H. }
  rewrite Hfs, Hss. cbn [bind]. eauto.
Qed.

(** X5.  On arrays of the default floating-point element type (the one
    element type of the embedding: a supplied starting batch and the
    score values are [float32] arrays), the call returns, raising
    nothing, when it is asked for at least one sample per chain, the
    score function returns arrays shaped like its argument, and the
    starting batch, when supplied, has one row per chain and rows of the
    sample shape. *)
Lemma langevin_dynamics_returns
    (n_chains n_samples : nat) (key : Key) (epsilon : F)
    (score_func : Params -> ndarray -> score_result) (params : Params)
    (init_scale : F) (starter_xs : option ndarray)
    (sample_shape : option (list (option nat))) (D : list nat) :
  0 < n_samples ->
  (forall x, shape x = D ->
     exists g, score_func params x = Returns g /\ shape g = D) ->
  (forall B, starter_xs = Some B -> shape B = n_chains :: D) ->
  match sample_shape with
  | Some t => dims_of (tl t) = Ok D
  | None => starter_xs <> None
  end ->
  exists starting_batch final_samples samples,
    langevin_dynamics n_chains n_samples key epsilon score_func params
      init_scale starter_xs sample_shape
    = Ok (starting_batch, final_samples, samples).
Proof.
  intros HT Hscore HB Hshape.
  assert (Hdims : forall D', dims_of (map Some D') = Ok D').
  { induction D' as [|d D' IH]; simpl; [reflexivity | now rewrite IH]. }
  assert (Hchain : forall t, dims_of (tl t) = Ok D ->
    forall x k, shape x = D ->
      exists a b,
        langevin_dynamics_one_chain t epsilon (score_func params) n_samples x k
          = Ok (a, b) /\ shape a = D /\ shape b = vstack_shape n_samples D).
  { intros t Ht x k Hx.
    exact (one_chain_returns t epsilon (score_func params) D Ht Hscore
             n_samples x k Hx HT). }
  destruct starter_xs as [B|].
  - specialize (HB B eq_refl). rewrite langevin_dynamics_supplied.
    assert (Ht : dims_of (tl match sample_shape with
                             | Some t => t
                             | None => None :: map Some (tl (shape B))
                             end) = Ok D).
    { destruct sample_shape as [t|]; [exact Hshape|].
      rewrite HB. simpl. apply Hdims. }
    destruct (vmap_returns _ B key n_chains D (vstack_shape n_samples D) HB
                (Hchain _ Ht)) as (fs & ss & Hv).
    rewrite Hv. cbn [bind]. eauto.
  - destruct sample_shape as [t|]; [|congruence].
    rewrite (langevin_dynamics_drawn n_chains n_samples key epsilon score_func
               params init_scale t D Hshape). cbn zeta.
    destruct (vmap_returns
                (langevin_dynamics_one_chain t epsilon (score_func params) n_samples)
                (smul_r (random_normal key (n_chains :: D)) init_scale)
                key n_chains D (vstack_shape n_samples D) eq_refl
                (Hchain t Hshape)) as (fs & ss & Hv).
    rewrite Hv. cbn [bind]. eauto.
Qed.

End Returns.

(** ** Worked examples on the integer runtime *)

Import IntRuntime.

Lemma inner_langevin_step_witness :
  @dims_of (tl [None; Some 2]) = Ok [2] /\
  neg_score tt (arr [2] [3; -1]%Z) = Returns (arr [2] [-3; 1]%Z) /\
  shape (arr [2] [3; -1]%Z) = [2] /\
  shape (arr [2] [-3; 1]%Z) = [2] /\
  @inner int_ops int_prng [None; Some 2] 2%Z (neg_score tt) (arr [2] [3; -1]%Z) 7%Z
    = Ok (arr [2] [-9; 1]%Z, arr [2] [3; -1]%Z).
Proof.
  split; [reflexivity|]. split; [reflexivity|].
  split; [reflexivity|]. split; [reflexivity|].
  exact (proj1 (proj2 (@inner_langevin_step int_ops int_prng unit
                         [None; Some 2] 2%Z neg_score tt (arr [2] [3; -1]%Z)
                         7%Z [2] eq_refl))
           (arr [2] [-3; 1]%Z) eq_refl eq_refl eq_refl).
Defined.

Lemma neg_score_same_shape (D : list nat) (x : @ndarray int_ops) :
  shape x = D -> exists g, neg_score tt x = Returns g /\ shape g = D.
Proof. intros Hx. exists (@smul_l int_ops (-1)%Z x). split; [reflexivity | exact Hx]. Defined.

Lemma both_None_raises_witness :
  run 3 5 42%Z 2%Z bad_score tt 5%Z None None
    = Raise (ValueError both_None_msg).
Proof.
  apply (proj2 (@both_None_raises int_ops int_prng unit 3 5 42%Z 2%Z
                  bad_score tt 5%Z None None)).
  split; reflexivity.
Defined.

Lemma neg_score_r_agrees (x : @ndarray int_ops) :
  neg_score tt x = neg_score_r tt x.
Proof.
  unfold neg_score, neg_score_r, smul_l, smul_r. do 2 f_equal.
  apply map_ext. intros v. apply Z.mul_comm.
Defined.

Lemma langevin_dynamics_deterministic_witness :
  (forall x, neg_score tt x = neg_score_r tt x) /\
  run 2 3 42%Z 2%Z neg_score tt 5%Z None (Some [None; Some 2])
  = run 2 3 42%Z 2%Z neg_score_r tt 5%Z None (Some [None; Some 2]).
Proof.
  split; [exact neg_score_r_agrees|].
  exact (@langevin_dynamics_deterministic int_ops int_prng unit 2 3 42%Z 2%Z
           neg_score neg_score_r tt 5%Z None (Some [None; Some 2])
           neg_score_r_agrees).
Defined.

Lemma output_shapes_witness :
  0 < 2 /\
  run 2 3 42%Z 2%Z neg_score tt 5%Z None (Some [None; Some 2])
    = Ok (arr [2; 2] [-15; 0; 15; -5]%Z,
          arr [2; 2] [17; 8; -25; 15]%Z,
          arr [2; 3; 2] [-15; 0; 21; -2; -19; -4; 15; -5; -21; 5; 25; -9]%Z) /\
  exists D : list nat,
    @dims_of (tl [None; Some 2]) = Ok D /\
    [2; 2] = 2 :: D /\
    [2; 2] = 2 :: D /\
    [2; 3; 2] = 2 :: @vstack_shape 3 D /\
    (forall d, D = [d] -> [2; 3; 2] = 2 :: 3 :: D) /\
    (D = [] -> [2; 3; 2] = [2; 3; 1]) /\
    (forall a b rest, D = a :: b :: rest -> [2; 3; 2] = 2 :: 3 * a :: b :: rest).
Proof.
  split; [lia|]. split; [reflexivity|].
  exact (@output_shapes int_ops int_prng unit 2 3 42%Z 2%Z neg_score tt 5%Z
           None (Some [None; Some 2])
           (arr [2; 2] [-15; 0; 15; -5]%Z)
           (arr [2; 2] [17; 8; -25; 15]%Z)
           (arr [2; 3; 2] [-15; 0; 21; -2; -19; -4; 15; -5; -21; 5; 25; -9]%Z)
           (Nat.lt_0_succ 1) eq_refl).
Defined.

(** C5.  The shape [(n_chains, n_samples, *D)] of [samples] fails for
    samples with two axes and for scalar samples, [np.vstack] folding the
    step axis into the first axis of a sample: with [D = (2, 3)], one
    chain and two steps, [samples] has shape [(1, 4, 3)], not
    [(1, 2, 2, 3)]; with [D = ()], two chains and two steps, it has shape
    [(2, 2, 1)], not [(2, 2)]. *)
Lemma output_shapes_counterexample :
  (exists sb fs ss : @ndarray int_ops,
     run 1 2 42%Z 2%Z neg_score tt 5%Z None (Some [None; Some 2; Some 3])
       = Ok (sb, fs, ss) /\
     shape ss = [1; 4; 3] /\
     shape ss <> 1 :: 2 :: [2; 3]) /\
  (exists sb fs ss : @ndarray int_ops,
     run 2 2 42%Z 2%Z neg_score tt 5%Z None (Some [None])
       = Ok (sb, fs, ss) /\
     shape ss = [2; 2; 1] /\
     shape ss <> 2 :: 2 :: []).
Proof.
  split.
  - do 3 eexists. split; [vm_compute; reflexivity|].
    split; [reflexivity | discriminate].
  - do 3 eexists. split; [vm_compute; reflexivity|].
    split; [reflexivity | discriminate].
Qed.

(** C2.  One chain of two steps on samples of shape [(2, 3)], from
    [x0 = [[1, 2, 3], [4, 5, 6]]].  The scan records the two states
    [x0] and [x1] in order and ends in [x2]; the trajectory the chain
    returns is [np.vstack] of the recorded states, an array of shape
    [(4, 3)]: it has four entries along its leading axis, not two, entry
    [0] is the first row of [x0] and entry [1] the second row of [x0],
    and no entry is the state [x1]. *)
Lemma one_chain_trajectory_folded :
  let x0 := arr [2; 3] [1; 2; 3; 4; 5; 6]%Z in
  let x1 := arr [2; 3] [3; -6; -1; -10; -5; 0]%Z in
  let x2 := arr [2; 3] [-3; 12; -1; 14; 1; 2]%Z in
  let step := @inner int_ops int_prng [None; Some 2; Some 3] 2%Z (neg_score tt) in
  let traj := arr [4; 3] [1; 2; 3; 4; 5; 6; 3; -6; -1; -10; -5; 0]%Z in
  step x0 (int_subkey 42%Z 2 0) = Ok (x1, x0) /\
  step x1 (int_subkey 42%Z 2 1) = Ok (x2, x1) /\
  @lax_scan int_ops int_prng step x0 (@random_split int_ops int_prng 42%Z 2)
    = Ok (x2, [x0; x1]) /\
  @langevin_dynamics_one_chain int_ops int_prng [None; Some 2; Some 3] 2%Z
      (neg_score tt) 2 x0 42%Z
    = Ok (x2, traj) /\
  hd 0 (shape traj) = 4 /\
  row traj 0 = arr [3] [1; 2; 3]%Z /\
  row traj 1 = arr [3] [4; 5; 6]%Z /\
  row traj 2 = arr [3] [3; -6; -1]%Z /\
  row traj 3 = arr [3] [-10; -5; 0]%Z /\
  (forall i : nat, row traj i <> x1).
Proof.
  cbv zeta. repeat (split; [reflexivity|]).
  intros i H. apply (f_equal (@shape int_ops)) in H. discriminate H.
Qed.

Lemma supplied_starter_xs_unchanged_witness :
  run 3 5 42%Z 2%Z zero_score tt 5%Z (Some zeros_3_2) None
    = Ok (arr [3; 2] [0; 0; 0; 0; 0; 0]%Z,
          arr [3; 2] [4; -8; 0; 2; -4; -2]%Z,
          arr [3; 5; 2] [0; 0; 6; -2; 8; -8; 6; -4; 0; -4;
                         0; 0; -6; 0; -2; -4; -2; 2; -6; 4;
                         0; 0; -4; 2; 2; 0; 4; -6; 2; -2]%Z) /\
  arr [3; 2] [0; 0; 0; 0; 0; 0]%Z = zeros_3_2 /\
  run 3 5 42%Z 2%Z zero_score tt 9%Z (Some zeros_3_2) None
    = run 3 5 42%Z 2%Z zero_score tt 5%Z (Some zeros_3_2) None.
Proof.
  split; [reflexivity|].
  pose proof (@supplied_starter_xs_unchanged int_ops int_prng unit 3 5 42%Z 2%Z
                zero_score tt 5%Z zeros_3_2 None) as [Hsb [Hscale _]].
  split.
  - exact (Hsb _ _ _ eq_refl).
  - exact (Hscale 9%Z).
Defined.

Lemma zeros_3_2_wf (B : @ndarray int_ops) : Some zeros_3_2 = Some B -> wf B.
Proof. intros H. injection H as <-. reflexivity. Defined.

Lemma zero_score_wf (x g : @ndarray int_ops) :
  zero_score tt x = Returns g -> wf g.
Proof.
  intros H. injection H as <-. unfold wf, zeros. simpl. apply repeat_length.
Defined.

Lemma supplied_starter_xs_leading_dim_witness :
  hd_error (shape zeros_3_2) <> Some 2 /\
  run 2 5 42%Z 2%Z zero_score tt 5%Z (Some zeros_3_2) None
    = Raise (ValueError "vmap got inconsistent sizes for array axes to be mapped").
Proof.
  assert (H : hd_error (shape zeros_3_2) <> Some 2) by discriminate.
  split; [exact H|].
  exact (@supplied_starter_xs_leading_dim int_ops int_prng unit 2 5 42%Z 2%Z
           zero_score tt 5%Z zeros_3_2 None H).
Defined.

Lemma drawn_starting_batch_reuses_key_witness :
  @dims_of (tl [None; Some 2]) = Ok [2] /\
  run 2 3 42%Z 2%Z neg_score tt 5%Z None (Some [None; Some 2])
  = (let B := arr [2; 2]
                (map (fun j => Z.mul (int_normal_entry 42%Z [2; 2] j) 5%Z)
                   (seq 0 (2 * 2))) in
     '(final_samples, samples) <-
       @vmap int_ops int_prng
         (@langevin_dynamics_one_chain int_ops int_prng [None; Some 2] 2%Z
            (neg_score tt) 3)
         B (map (int_subkey 42%Z 2) (seq 0 2)) ;;
     Ok (B, final_samples, samples)).
Proof.
  split; [reflexivity|].
  exact (@drawn_starting_batch_reuses_key int_ops int_prng unit 2 3 42%Z 2%Z
           neg_score tt 5%Z [None; Some 2] [2] eq_refl).
Defined.

(** ** Further properties of the call *)

Section CallFacts.
Context {FO : FloatOps} {RNG : PRNG FO}.
Context {Params : Type}.

Variables (n_chains n_samples : nat) (key : Key) (epsilon : F).
Variable score_func : Params -> ndarray -> score_result.
Variables (params : Params) (init_scale : F).

Lemma inner_tail (t1 t2 : list (option nat)) (score : ndarray -> score_result)
    (x : ndarray) (k : Key) :
  tl t1 = tl t2 -> inner t1 epsilon score x k = inner t2 epsilon score x k.
Proof. intros H. unfold inner. now rewrite H. Qed.

Lemma one_chain_tail (t1 t2 : list (option nat)) (score : ndarray -> score_result)
    (T : nat) (x : ndarray) (k : Key) :
  tl t1 = tl t2 ->
  langevin_dynamics_one_chain t1 epsilon score T x k
  = langevin_dynamics_one_chain t2 epsilon score T x k.
Proof.
  intros H. unfold langevin_dynamics_one_chain, lax_scan.
  assert (E : scan_loop (carry_checked (inner t1 epsilon score)) x (random_split k T)
              = scan_loop (carry_checked (inner t2 epsilon score)) x (random_split k T)).
  { apply scan_loop_ext. intros c k'. unfold carry_checked.
    now rewrite (inner_tail t1 t2 score c k' H). }
  now rewrite E.
Qed.

(** X1.  Only [sample_shape[1:]] matters: two tuples with the same tail
    give the same call, whatever their first entries are; and leaving
    [sample_shape] out, with [starter_xs] supplied, is the same as passing
    the shape of one row of [starter_xs] behind any first entry. *)
Theorem sample_shape_leading_entry_ignored (starter_xs : option ndarray) :
  (forall t1 t2 : list (option nat),
      tl t1 = tl t2 ->
      langevin_dynamics n_chains n_samples key epsilon score_func params
        init_scale starter_xs (Some t1)
      = langevin_dynamics n_chains n_samples key epsilon score_func params
          init_scale starter_xs (Some t2))
  /\ (forall (B : ndarray) (a : option nat),
      starter_xs = Some B ->
      langevin_dynamics n_chains n_samples key epsilon score_func params
        init_scale starter_xs None
      = langevin_dynamics n_chains n_samples key epsilon score_func params
          init_scale starter_xs (Some (a :: map Some (tl (shape B))))).
Proof.
  split.
  - intros t1 t2 H. destruct starter_xs as [B|].
    + rewrite !langevin_dynamics_supplied.
      assert (E : vmap (langevin_dynamics_one_chain t1 epsilon (score_func params)
                          n_samples) B (random_split key n_chains)
                  = vmap (langevin_dynamics_one_chain t2 epsilon (score_func params)
                            n_samples) B (random_split key n_chains)).
      { apply vmap_ext. intros x k. now apply one_chain_tail. }
      now rewrite E.
    + unfold langevin_dynamics. cbn [is_None andb bind dims_of]. rewrite H.
      destruct (dims_of (tl t2)) as [D|e]; cbn [bind]; [|reflexivity].
      assert (E : forall xs,
                vmap (langevin_dynamics_one_chain t1 epsilon (score_func params)
                        n_samples) xs (random_split key n_chains)
                = vmap (langevin_dynamics_one_chain t2 epsilon (score_func params)
                          n_samples) xs (random_split key n_chains)).
      { intros xs. apply vmap_ext. intros x k. now apply one_chain_tail. }
      now rewrite E.
  - intros B a ->. rewrite !langevin_dynamics_supplied.
    assert (E : vmap (langevin_dynamics_one_chain (None :: map Some (tl (shape B)))
                        epsilon (score_func params) n_samples)
                  B (random_split key n_chains)
                = vmap (langevin_dynamics_one_chain (a :: map Some (tl (shape B)))
                          epsilon (score_func params) n_samples)
                    B (random_split key n_chains)).
    { apply vmap_ext. intros x k. now apply one_chain_tail. }
    now rewrite E.
Qed.

Lemma dims_of_None (t : list (option nat)) :
  In None t ->
  dims_of t = Raise (TypeError "Shapes must be 1D sequences of concrete values of integer type").
Proof.
  induction t as [|[d|] t IH]; intros H.
  - destruct H.
  - destruct H as [H|H]; [discriminate|]. simpl. now rewrite (IH H).
  - reflexivity.
Qed.

Lemma dims_of_Some (D : list nat) : dims_of (map Some D) = Ok D.
Proof. induction D as [|d D IH]; simpl; [reflexivity | now rewrite IH]. Qed.

(** A chain whose first step raises, raises that exception. *)
Lemma one_chain_first_step_raises (t : list (option nat))
    (score : ndarray -> score_result) (T : nat) (x : ndarray) (k : Key) (e : exn) :
  0 < T ->
  inner t epsilon score x (subkey k T 0) = Raise e ->
  langevin_dynamics_one_chain t epsilon score T x k = Raise e.
Proof.
  intros HT H. destruct T as [|T]; [lia|].
  unfold langevin_dynamics_one_chain, lax_scan, random_split.
  cbn [seq map scan_loop]. unfold carry_checked at 1. rewrite H. reflexivity.
Qed.

(** [vmap] raises what the mapped function raises on the first row. *)
Lemma vmap_first_row_raises (run : ndarray -> Key -> result (ndarray * ndarray))
    (xs : ndarray) (k : Key) (n : nat) (D : list nat) (e : exn) :
  shape xs = n :: D ->
  0 < n ->
  run (row xs 0) (subkey k n 0) = Raise e ->
  vmap run xs (random_split k n) = Raise e.
Proof.
  intros Hxs Hn H. rewrite (vmap_by_index run xs k n D Hxs).
  destruct n as [|n]; [lia|]. cbn [seq mapM]. rewrite H. reflexivity.
Qed.

End CallFacts.

Section EdgeCases.
Context {FO : FloatOps} {RNG : PRNG FO}.
Context {Params : Type}.

Variables (n_chains n_samples : nat) (key : Key) (epsilon : F).
Variable score_func : Params -> ndarray -> score_result.
Variables (params : Params) (init_scale : F).

(** X2.  A [None] among the entries of [sample_shape[1:]] makes the call
    raise [TypeError]: at the initial draw when [starter_xs] is left out,
    whatever the other arguments are; and at the first draw of the first
    chain when [starter_xs] is supplied with one row per chain, for at
    least one chain and one step. *)
Theorem sample_shape_None_entry_raises (t : list (option nat)) :
  In None (tl t) ->
  langevin_dynamics n_chains n_samples key epsilon score_func params
    init_scale None (Some t)
  = Raise (TypeError "Shapes must be 1D sequences of concrete values of integer type")
  /\ forall (B : ndarray) (D : list nat),
       shape B = n_chains :: D ->
       0 < n_chains ->
       0 < n_samples ->
       langevin_dynamics n_chains n_samples key epsilon score_func params
         init_scale (Some B) (Some t)
       = Raise (TypeError "Shapes must be 1D sequences of concrete values of integer type").
Proof.
  intros Hin. split.
  - unfold langevin_dynamics. cbn [is_None andb bind dims_of].
    now rewrite (dims_of_None (tl t) Hin).
  - intros B D HB Hn HT. rewrite langevin_dynamics_supplied.
    erewrite (vmap_first_row_raises _ B key n_chains D);
      [reflexivity | exact HB | exact Hn |].
    apply one_chain_first_step_raises; [exact HT|].
    unfold inner. now rewrite (dims_of_None (tl t) Hin).
Qed.

(** X3.  Asking for no sample at all raises: in a configuration in which
    any positive [n_samples] would return (the runtime traces the step
    even when it is never taken, so the step has to be one that traces),
    with at least one chain, [n_samples = 0] leaves [np.vstack] with
    nothing to stack and the call raises [ValueError]. *)
Theorem no_samples_raises
    (starter_xs : option ndarray) (sample_shape : option (list (option nat)))
    (D : list nat) :
  0 < n_chains ->
  (forall x, shape x = D ->
     exists g, score_func params x = Returns g /\ shape g = D) ->
  (forall B, starter_xs = Some B -> shape B = n_chains :: D) ->
  match sample_shape with
  | Some t => dims_of (tl t) = Ok D
  | None => starter_xs <> None
  end ->
  langevin_dynamics n_chains 0 key epsilon score_func params
    init_scale starter_xs sample_shape
  = Raise (ValueError "Need at least one array to concatenate.").
Proof.
  intros Hn _ HB Hshape. destruct starter_xs as [B|].
  - rewrite langevin_dynamics_supplied.
    erewrite (vmap_first_row_raises _ B key n_chains D);
      [reflexivity | exact (HB B eq_refl) | exact Hn | reflexivity].
  - destruct sample_shape as [t|]; [|congruence].
    rewrite (langevin_dynamics_drawn n_chains 0 key epsilon score_func
               params init_scale t D Hshape). cbn zeta.
    erewrite (vmap_first_row_raises _ _ key n_chains D);
      [reflexivity | reflexivity | exact Hn | reflexivity].
Qed.

(** X4.  A failure of the score function is not caught: when the score
    function fails on samples of the row shape, a call that reaches its
    first step (at least one chain, at least one step, a starting batch
    with one row per chain, integer sample dimensions) raises that very
    failure and returns nothing. *)
Theorem score_failure_propagates
    (starter_xs : option ndarray) (sample_shape : option (list (option nat)))
    (D : list nat) (what : string) :
  0 < n_chains ->
  0 < n_samples ->
  (forall x, shape x = D -> score_func params x = Fails what) ->
  (forall B, starter_xs = Some B -> shape B = n_chains :: D) ->
  match sample_shape with
  | Some t =>
      match starter_xs with
      | Some _ => exists Ds, dims_of (tl t) = Ok Ds
      | None => dims_of (tl t) = Ok D
      end
  | None => starter_xs <> None
  end ->
  langevin_dynamics n_chains n_samples key epsilon score_func params
    init_scale starter_xs sample_shape
  = Raise (ScoreFunctionError what).
Proof.
  intros Hn HT Hfail HB Hshape.
  assert (Hstep : forall t Ds x k,
            dims_of (tl t) = Ok Ds -> shape x = D ->
            langevin_dynamics_one_chain t epsilon (score_func params) n_samples x k
            = Raise (ScoreFunctionError what)).
  { intros t Ds x k Ht Hx. apply one_chain_first_step_raises; [exact HT|].
    unfold inner. rewrite Ht. cbn [bind]. now rewrite (Hfail x Hx). }
  destruct starter_xs as [B|].
  - specialize (HB B eq_refl). rewrite langevin_dynamics_supplied.
    assert (Ht : exists Ds, dims_of (tl match sample_shape with
                                        | Some t => t
                                        | None => None :: map Some (tl (shape B))
                                        end) = Ok Ds).
    { destruct sample_shape as [t|]; [exact Hshape|].
      exists (tl (shape B)). apply dims_of_Some. }
    destruct Ht as (Ds & Ht).
    erewrite (vmap_first_row_raises _ B key n_chains D);
      [reflexivity | exact HB | exact Hn |].
    apply (Hstep _ Ds); [exact Ht|]. unfold row. now rewrite HB.
  - destruct sample_shape as [t|]; [|congruence].
    rewrite (langevin_dynamics_drawn n_chains n_samples key epsilon score_func
               params init_scale t D Hshape). cbn zeta.
    erewrite (vmap_first_row_raises _ _ key n_chains D);
      [reflexivity | reflexivity | exact Hn |].
    now apply (Hstep t D).
Qed.

End EdgeCases.

(** ** Shapes that fit *)

Section Fit.
Context {FO : FloatOps} {RNG : PRNG FO}.
Context {Params : Type}.

Lemma compatible_axes_Forall2 (from to : list nat) :
  Forall2 (fun m n => m = n \/ m = 1) from to -> compatible_axes from to = true.
Proof.
  induction 1 as [|m n from to Hmn _ IH]; simpl; [reflexivity|].
  rewrite IH, andb_true_r. apply orb_true_iff.
  destruct Hmn as [->| ->]; [left | right]; apply Nat.eqb_refl.
Qed.

Lemma add_shape (a b c : ndarray) :
  add a b = Ok c -> broadcast_shapes (shape a) (shape b) = Some (shape c).
Proof.
  unfold add. destruct (broadcast_shapes (shape a) (shape b)) as [s|];
    [|discriminate].
  intros H. now injection H as <-.
Qed.

(** Two shapes that stretch to each other are one shape. *)
Lemma stretch_antisym (s s' : list nat) :
  Forall2 (fun m n => m = n \/ m = 1) (repeat 1 (length s' - length s) ++ s) s' ->
  Forall2 (fun m n => m = n \/ m = 1) (repeat 1 (length s - length s') ++ s') s ->
  s = s'.
Proof.
  intros H1 H2.
  assert (L1 := Forall2_length H1). assert (L2 := Forall2_length H2).
  rewrite length_app, repeat_length in L1, L2.
  assert (L : length s = length s') by lia.
  rewrite L, Nat.sub_diag in H1. rewrite L, Nat.sub_diag in H2.
  simpl in H1, H2. clear L1 L2 L.
  revert H2. induction H1 as [|m n s s' Hmn _ IH]; intros H2; [reflexivity|].
  inversion H2 as [|? ? ? ? Hnm H2']; subst.
  f_equal; [|now apply IH].
  destruct Hmn as [|Hm]; [assumption|]. destruct Hnm as [Hn|Hn]; congruence.
Qed.

(** A step the scan accepts: the draw and the score value both stretch to
    the shape of the state. *)
Lemma accepted_step_fits (t : list (option nat)) (epsilon : F)
    (score : ndarray -> score_result) (x x' y : ndarray) (k : Key) :
  carry_checked (inner t epsilon score) x k = Ok (x', y) ->
  exists (Ds : list nat) (g : ndarray),
    dims_of (tl t) = Ok Ds /\
    stretches_to Ds (shape x) = true /\
    score x = Returns g /\
    stretches_to (shape g) (shape x) = true.
Proof.
  unfold carry_checked. intros H.
  apply bind_ok_inv in H as ([c z] & Hin & H).
  destruct (shape_eqb (shape c) (shape x)) eqn:Hsh; [|discriminate].
  injection H as <- <-. apply shape_eqb_true in Hsh.
  apply inner_ok_inv in Hin as (Ds & g & drift & HDs & Hg & Hdrift & Hnew & _).
  apply add_shape, broadcast_shapes_compatible in Hdrift as (Hx & Hgf).
  apply add_shape, broadcast_shapes_compatible in Hnew as (Hd & Hz).
  cbn [shape smul_l random_normal] in *. rewrite Hsh in Hd, Hz.
  assert (E : shape x = shape drift) by (apply stretch_antisym; assumption).
  rewrite <- E in Hgf.
  exists Ds, g. unfold stretches_to.
  repeat split; try assumption; now apply compatible_axes_Forall2.
Qed.

(** X6.  A call that returns, with at least one chain, was asked for at
    least one sample per chain, and its shapes fit: [sample_shape[1:]]
    (or the row shape of [starter_xs] in its place) is a tuple of
    integers that stretches, by the broadcasting rule, to the shape of a
    row of the starting batch, and so does the shape of what the score
    function returns on the first row. *)
Theorem returning_call_shapes_fit
    (n_chains n_samples : nat) (key : Key) (epsilon : F)
    (score_func : Params -> ndarray -> score_result) (params : Params)
    (init_scale : F) (starter_xs : option ndarray)
    (sample_shape : option (list (option nat)))
    (starting_batch final_samples samples : ndarray) :
  0 < n_chains ->
  langevin_dynamics n_chains n_samples key epsilon score_func params
    init_scale starter_xs sample_shape
    = Ok (starting_batch, final_samples, samples) ->
  0 < n_samples /\
  exists (Ds : list nat) (g : ndarray),
    dims_of (tl match sample_shape with
                | Some t => t
                | None => None :: map Some (tl (shape starting_batch))
                end) = Ok Ds /\
    stretches_to Ds (tl (shape starting_batch)) = true /\
    score_func params (row starting_batch 0) = Returns g /\
    stretches_to (shape g) (tl (shape starting_batch)) = true.
Proof.
  intros Hn H.
  apply langevin_dynamics_ok_inv in H as ((D & HD) & Hv & _).
  destruct (vmap_outputs_by_index _ _ key n_chains D _ _ HD Hv)
    as (outs & _ & _ & _ & Hnth).
  destruct (Hnth 0 Hn) as ([xT traj] & _ & Hchain).
  unfold langevin_dynamics_one_chain in Hchain.
  apply bind_ok_inv in Hchain as ([xT' ys] & Hscan & Hst).
  apply bind_ok_inv in Hst as (v & Hvs & _).
  unfold lax_scan, random_split in Hscan.
  destruct n_samples as [|T].
  - simpl in Hscan. injection Hscan as _ <-. discriminate.
  - split; [lia|]. cbn [seq map scan_loop] in Hscan.
    apply bind_ok_inv in Hscan as ([c y] & Hstep & _).
    apply accepted_step_fits in Hstep as (Ds & g & HDs & Hfit & Hg & Hgfit).
    assert (Hrow : shape (row starting_batch 0) = tl (shape starting_batch))
      by reflexivity.
    rewrite Hrow in Hfit, Hgfit. exists Ds, g. auto.
Qed.

End Fit.

(** ** Score functions that keep arrays well formed *)

Section WellFormedScores.
Context {FO : FloatOps} {RNG : PRNG FO}.

Variable sample_shape : list (option nat).
Variable epsilon : F.
Variable score : ndarray -> score_result.

(** On a well-formed array the score function returns a well-formed one. *)
Hypothesis score_keeps_wf : forall x g, wf x -> score x = Returns g -> wf g.

Lemma inner_keeps_wf (x x' y : ndarray) (key : Key) :
  inner sample_shape epsilon score x key = Ok (x', y) -> wf x -> wf x'.
Proof.
  intros H Hx.
  apply inner_ok_inv in H as (D & g & drift & _ & Hg & Hdrift & Hnew & _).
  eapply add_wf; [exact Hnew | | apply smul_l_wf, random_normal_wf].
  eapply add_wf; [exact Hdrift | exact Hx | apply smul_l_wf]. eauto.
Qed.

Lemma chain_states_keep_wf (x0 : ndarray) (ks : list Key) (states : list ndarray) :
  chain_states (inner sample_shape epsilon score) x0 ks states ->
  wf x0 -> Forall wf states.
Proof.
  induction 1 as [x|x x' k ks rest Hstep _ IH]; intros Hx.
  - repeat constructor. exact Hx.
  - constructor; [exact Hx|]. apply IH. eapply inner_keeps_wf; eassumption.
Qed.

Lemma one_chain_keeps_wf (n_samples : nat) (x : ndarray) (key : Key)
    (final_xs samples : ndarray) :
  langevin_dynamics_one_chain sample_shape epsilon score n_samples x key
    = Ok (final_xs, samples) ->
  wf x -> wf final_xs /\ wf samples.
Proof.
  unfold langevin_dynamics_one_chain. intros H Hx.
  apply bind_ok_inv in H as ([xT ys] & Hscan & H).
  apply bind_ok_inv in H as (v & Hv & H). injection H as <- <-.
  eapply lax_scan_states in Hscan as (Hst & _); [|apply inner_records_prev].
  apply chain_states_keep_wf in Hst; [|exact Hx].
  apply Forall_app in Hst as (Hys & HxT).
  split; [now inversion HxT | eapply vstack_wf; eassumption].
Qed.

End WellFormedScores.

(** ** What the returned arrays hold *)

Section Contents.
Context {FO : FloatOps} {RNG : PRNG FO}.
Context {Params : Type}.

Lemma stack_wf (l : list ndarray) (s : ndarray) :
  stack l = Ok s -> Forall wf l -> wf s.
Proof.
  destruct l as [|a0 l]; intros H Hwf.
  - injection H as <-. reflexivity.
  - apply stack_ok_inv in H as (-> & Hshapes).
    unfold wf. cbn [data shape size fold_right]. fold (size (shape a0)).
    rewrite (length_concat_const _ (size (shape a0))).
    + now rewrite length_map.
    + apply Forall_map, Forall_forall. intros b Hb.
      rewrite Forall_forall in Hwf, Hshapes.
      now rewrite (Hwf b Hb), (Hshapes b Hb).
Qed.

Lemma size_vstack_shape (T : nat) (D : list nat) :
  size (vstack_shape T D) = T * size D.
Proof.
  unfold size. destruct D as [|d [|d' rest]]; simpl; lia.
Qed.

(** With well-formed inputs, what [vmap] returns is well formed. *)
Lemma vmap_wf (run : ndarray -> Key -> result (ndarray * ndarray))
    (xs : ndarray) (key : Key) (n : nat) (D : list nat)
    (finals trajs : ndarray) :
  shape xs = n :: D ->
  wf xs ->
  (forall x k a b, run x k = Ok (a, b) -> wf x -> wf a /\ wf b) ->
  vmap run xs (random_split key n) = Ok (finals, trajs) ->
  wf finals /\ wf trajs.
Proof.
  intros Hxs Hwf Hrun Hv.
  destruct (vmap_outputs_by_index run xs key n D finals trajs Hxs Hv)
    as (outs & Hlen & Hfs & Hss & Hnth).
  assert (Hall : Forall (fun o : ndarray * ndarray => wf (fst o) /\ wf (snd o)) outs).
  { apply Forall_forall. intros o Ho.
    apply In_nth_error in Ho as (j & Hj).
    assert (Hjn : j < n).
    { rewrite <- Hlen. apply nth_error_Some. congruence. }
    destruct (Hnth j Hjn) as ([a b] & Hj' & Hab).
    rewrite Hj in Hj'. injection Hj' as ->.
    apply Hrun in Hab; [exact Hab | exact (row_wf xs n j D Hxs Hwf Hjn)]. }
  split.
  - apply (stack_wf _ _ Hfs), Forall_map.
    eapply Forall_impl; [|exact Hall]. intros o [H _]; exact H.
  - apply (stack_wf _ _ Hss), Forall_map.
    eapply Forall_impl; [|exact Hall]. intros o [_ H]; exact H.
Qed.

Section Call.
Variables (n_chains n_samples : nat) (key : Key) (epsilon : F).
Variable score_func : Params -> ndarray -> score_result.
Variables (params : Params) (init_scale : F).
Variable starter_xs : option ndarray.
Variable sample_shape : option (list (option nat)).

(** Well-formed inputs: the supplied batch, and what the score function
    returns. *)
Hypothesis starter_wf : forall B, starter_xs = Some B -> wf B.
Hypothesis score_wf : forall x g, wf x -> score_func params x = Returns g -> wf g.

Lemma starting_batch_wf (starting_batch final_samples samples : ndarray) :
  langevin_dynamics n_chains n_samples key epsilon score_func params
    init_scale starter_xs sample_shape
    = Ok (starting_batch, final_samples, samples) ->
  wf starting_batch.
Proof.
  intros H. apply langevin_dynamics_ok_inv in H as (_ & _ & Hsb).
  destruct starter_xs as [B|].
  - subst. now apply starter_wf.
  - destruct Hsb as (D & ->). apply smul_r_wf, random_normal_wf.
Qed.

(** X7.  The returned arrays hold what their shapes say, and [np.vstack]
    only regroups the trajectory: whatever the sample shape [D] is,
    [starting_batch] and [final_samples] hold [n_chains * prod(D)] scalars
    and [samples] holds [n_chains * n_samples * prod(D)]. *)
Theorem output_sizes (starting_batch final_samples samples : ndarray) :
  0 < n_chains ->
  langevin_dynamics n_chains n_samples key epsilon score_func params
    init_scale starter_xs sample_shape
    = Ok (starting_batch, final_samples, samples) ->
  let D := tl (shape starting_batch) in
  length (data starting_batch) = n_chains * size D /\
  length (data final_samples) = n_chains * size D /\
  length (data samples) = n_chains * (n_samples * size D).
Proof.
  intros Hn H D.
  pose proof (starting_batch_wf _ _ _ H) as Hsb.
  apply langevin_dynamics_ok_inv in H as ((D' & HD) & Hv & _).
  assert (ED : D = D') by (unfold D; now rewrite HD). subst D'.
  assert (Hkeys : random_split key n_chains <> []).
  { intros E. apply (f_equal (@length _)) in E.
    rewrite random_split_length in E. simpl in E. lia. }
  destruct (vmap_wf _ _ key n_chains D _ _ HD Hsb
              (fun x k a b Hab Hx => one_chain_keeps_wf _ _ _ score_wf _ _ _ _ _ Hab Hx) Hv)
    as (Hfs & Hss).
  eapply vmap_shapes with (V := vstack_shape n_samples) in Hv
    as (D'' & HB & Hfsh & Hssh);
    [| intros x k a b; apply one_chain_shapes | exact Hkeys].
  rewrite random_split_length in *. rewrite HD in HB. injection HB as <-.
  unfold wf in Hsb, Hfs, Hss. rewrite HD in Hsb. rewrite Hfsh in Hfs.
  rewrite Hssh in Hss.
  change (size (n_chains :: D)) with (n_chains * size D) in Hsb, Hfs.
  change (size (n_chains :: vstack_shape n_samples D))
    with (n_chains * size (vstack_shape n_samples D)) in Hss.
  rewrite size_vstack_shape in Hss. auto.
Qed.

End Call.

End Contents.

(** ** Indexing the trajectory *)

Section Indexing.
Context {FO : FloatOps} {RNG : PRNG FO}.
Context {Params : Type}.

(** For samples with one axis [np.vstack] is plain stacking. *)
Lemma vstack_one_axis (xs : list ndarray) (d : nat) (v : ndarray) :
  Forall (fun x => shape x = [d]) xs ->
  vstack xs = Ok v -> stack xs = Ok v.
Proof.
  intros Hall Hv. destruct xs as [|x xs]; [discriminate|].
  rewrite (vstack_same_shape _ [d]) in Hv by (congruence || assumption).
  rewrite (stack_same_shape _ [d]) by (congruence || assumption).
  exact Hv.
Qed.

(** One chain over samples with one axis: the trajectory starts with the
    starting state, entry [t + 1] is one step after entry [t], and the
    final state is one step after the last entry. *)
Lemma one_chain_indexing (t : list (option nat)) (epsilon : F)
    (score : ndarray -> score_result) (T : nat) (x0 : ndarray) (k : Key)
    (xT traj : ndarray) (d : nat) :
  (forall x g, wf x -> score x = Returns g -> wf g) ->
  shape x0 = [d] -> wf x0 ->
  langevin_dynamics_one_chain t epsilon score T x0 k = Ok (xT, traj) ->
  row traj 0 = x0 /\
  forall j, j < T ->
    inner t epsilon score (row traj j) (subkey k T j)
    = Ok (if S j <? T then row traj (S j) else xT, row traj j).
Proof.
  intros Hscore Hx0 Hwf0 H. unfold langevin_dynamics_one_chain in H.
  apply bind_ok_inv in H as ([xT' ys] & Hscan & H).
  apply bind_ok_inv in H as (v & Hv & H). injection H as <- <-.
  eapply lax_scan_states in Hscan as (Hst & Hall); [|apply inner_records_prev].
  pose proof (chain_states_keep_wf _ _ _ Hscore _ _ _ Hst Hwf0) as Hwf.
  assert (Hlen : length ys = T).
  { apply chain_states_length in Hst.
    rewrite length_app, random_split_length in Hst. simpl in Hst. lia. }
  rewrite Hx0 in Hall. apply Forall_app in Hall as (Hys & _).
  apply Forall_app in Hwf as (Hwfys & _).
  assert (Hhead : exists ys', ys = x0 :: ys').
  { destruct (chain_states_head _ _ _ _ Hst) as (rest & E).
    destruct ys as [|y ys']; [discriminate Hv|].
    simpl in E. injection E as E _. subst y. eauto. }
  apply (vstack_one_axis _ d _ Hys) in Hv.
  assert (Hrow : forall j a, nth_error ys j = Some a -> row v j = a).
  { intros j a Hj. exact (row_stack ys v a j Hv Hwfys Hj). }
  split.
  - apply Hrow. destruct Hhead as (ys' & ->). reflexivity.
  - intros j Hj.
    destruct (chain_states_nth _ _ _ _ j _ Hst (random_split_nth k _ _ Hj))
      as (x & x' & Hx & Hx' & Hstep).
    rewrite nth_error_app1 in Hx by lia.
    rewrite (Hrow j x Hx).
    destruct (Nat.ltb_spec (S j) T) as [Hlt|Hge].
    + rewrite nth_error_app1 in Hx' by lia. now rewrite (Hrow (S j) x' Hx').
    + assert (E : S j = length ys) by lia.
      rewrite E, nth_error_app2, Nat.sub_diag in Hx' by lia.
      injection Hx' as <-. exact Hstep.
Qed.

(** X8.  For samples with one axis and well-formed inputs, the returned
    arrays index as a trajectory: [samples[i][0]] is [starting_batch[i]];
    [samples[i][t + 1]] is one step of [inner] after [samples[i][t]],
    taken with the [t]-th key split from the [i]-th chain key; and
    [final_samples[i]] is one such step after the last entry
    [samples[i][n_samples - 1]]. *)
Theorem samples_index_as_trajectory
    (n_chains n_samples : nat) (key : Key) (epsilon : F)
    (score_func : Params -> ndarray -> score_result) (params : Params)
    (init_scale : F) (starter_xs : option ndarray)
    (sample_shape : option (list (option nat)))
    (starting_batch final_samples samples : ndarray) (d : nat) :
  (forall B, starter_xs = Some B -> wf B) ->
  (forall x g, wf x -> score_func params x = Returns g -> wf g) ->
  langevin_dynamics n_chains n_samples key epsilon score_func params
    init_scale starter_xs sample_shape
    = Ok (starting_batch, final_samples, samples) ->
  tl (shape starting_batch) = [d] ->
  forall i, i < n_chains ->
    row (row samples i) 0 = row starting_batch i /\
    forall t, t < n_samples ->
      inner match sample_shape with
            | Some s => s
            | None => None :: map Some (tl (shape starting_batch))
            end epsilon (score_func params)
        (row (row samples i) t)
        (subkey (subkey key n_chains i) n_samples t)
      = Ok (if S t <? n_samples then row (row samples i) (S t)
            else row final_samples i,
            row (row samples i) t).
Proof.
  intros HwfB Hscore H Hd i Hi.
  pose proof (starting_batch_wf _ _ _ _ _ _ _ _ _ HwfB _ _ _ H) as Hsb.
  apply langevin_dynamics_ok_inv in H as ((D & HD) & Hv & _).
  assert (ED : D = [d]) by (rewrite HD in Hd; exact Hd). subst D.
  pose proof (vmap_rows _ _ key n_chains [d] _ _ HD Hsb
                (fun x k a b Hab Hx =>
                   one_chain_keeps_wf _ _ _ Hscore _ _ _ _ _ Hab Hx) Hv i Hi) as Hchain.
  apply (one_chain_indexing _ _ _ _ _ _ _ _ d Hscore) in Hchain.
  - exact Hchain.
  - unfold row. now rewrite HD.
  - exact (row_wf _ n_chains i [d] HD Hsb Hi).
Qed.

End Indexing.

(** ** Chains do not influence each other *)

Section Independence.
Context {FO : FloatOps} {RNG : PRNG FO}.
Context {Params : Type}.

(** X9.  Chain [i] depends on row [i] of the starting batch only: two
    calls that differ in [starter_xs] alone, on well-formed batches of one
    shape that agree on row [i], return the same row [i] of
    [final_samples] and of [samples], whatever the other rows are. *)
Theorem chains_are_independent
    (n_chains n_samples : nat) (key : Key) (epsilon : F)
    (score_func : Params -> ndarray -> score_result) (params : Params)
    (init_scale : F) (B B' : ndarray)
    (sample_shape : option (list (option nat)))
    (sb fs ss sb' fs' ss' : ndarray) (i : nat) :
  shape B' = shape B ->
  wf B -> wf B' ->
  (forall x g, wf x -> score_func params x = Returns g -> wf g) ->
  i < n_chains ->
  row B' i = row B i ->
  langevin_dynamics n_chains n_samples key epsilon score_func params
    init_scale (Some B) sample_shape = Ok (sb, fs, ss) ->
  langevin_dynamics n_chains n_samples key epsilon score_func params
    init_scale (Some B') sample_shape = Ok (sb', fs', ss') ->
  row fs' i = row fs i /\ row ss' i = row ss i.
Proof.
  intros Hshape HwfB HwfB' Hscore Hi Hrow H H'.
  apply langevin_dynamics_ok_inv in H as ((D & HD) & Hv & ->).
  apply langevin_dynamics_ok_inv in H' as ((D' & HD') & Hv' & ->).
  rewrite Hshape in HD', Hv'. rewrite HD in HD'. injection HD' as <-.
  assert (Hrun : forall t x k a b,
            langevin_dynamics_one_chain t epsilon (score_func params) n_samples x k
              = Ok (a, b) -> wf x -> wf a /\ wf b).
  { intros t x k a b Hab Hx.
    exact (one_chain_keeps_wf _ _ _ Hscore _ _ _ _ _ Hab Hx). }
  pose proof (vmap_rows _ B key n_chains D fs ss HD HwfB (Hrun _) Hv i Hi) as E.
  assert (HD' : shape B' = n_chains :: D) by congruence.
  pose proof (vmap_rows _ B' key n_chains D fs' ss' HD' HwfB' (Hrun _) Hv' i Hi) as E'.
  rewrite Hrow, E in E'.
  split.
  - exact (f_equal (fun r => match r with
                             | Ok p => fst p
                             | Raise _ => row fs i
                             end) (eq_sym E')).
  - exact (f_equal (fun r => match r with
                             | Ok p => snd p
                             | Raise _ => row ss i
                             end) (eq_sym E')).
Qed.

End Independence.

(** ** What the score function is asked *)

Section ScoreCalls.
Context {FO : FloatOps} {RNG : PRNG FO}.
Context {Params : Type}.

Lemma carry_checked_shape (f : ndarray -> Key -> result (ndarray * ndarray))
    (x x' y : ndarray) (k : Key) :
  carry_checked f x k = Ok (x', y) -> shape x' = shape x.
Proof.
  unfold carry_checked. intros H.
  apply bind_ok_inv in H as ([c z] & _ & H).
  destruct (shape_eqb (shape c) (shape x)) eqn:E; [|discriminate].
  injection H as <- _. now apply shape_eqb_true.
Qed.

(** A scan only sees carries of the shape of its first one. *)
Lemma scan_loop_ext_on_shape (f g : ndarray -> Key -> result (ndarray * ndarray))
    (D : list nat) (x : ndarray) (ks : list Key) :
  (forall c k, shape c = D -> f c k = g c k) ->
  shape x = D ->
  scan_loop (carry_checked f) x ks = scan_loop (carry_checked g) x ks.
Proof.
  intros Hfg. revert x. induction ks as [|k ks IH]; intros x Hx; [reflexivity|].
  cbn [scan_loop].
  assert (E : carry_checked f x k = carry_checked g x k).
  { unfold carry_checked. now rewrite (Hfg x k Hx). }
  rewrite E. destruct (carry_checked g x k) as [[c y]|e] eqn:Hc; cbn [bind];
    [|reflexivity].
  rewrite IH; [reflexivity|]. apply carry_checked_shape in Hc. congruence.
Qed.

Lemma one_chain_ext_on_shape (t : list (option nat)) (epsilon : F)
    (score score' : ndarray -> score_result) (T : nat) (D : list nat)
    (x : ndarray) (k : Key) :
  (forall c, shape c = D -> score c = score' c) ->
  shape x = D ->
  langevin_dynamics_one_chain t epsilon score T x k
  = langevin_dynamics_one_chain t epsilon score' T x k.
Proof.
  intros Hs Hx. unfold langevin_dynamics_one_chain, lax_scan.
  rewrite (scan_loop_ext_on_shape (inner t epsilon score)
             (inner t epsilon score') D x _); [reflexivity | | exact Hx].
  intros c k' Hc. unfold inner. now rewrite (Hs c Hc).
Qed.

Lemma vmap_ext_on_rows (f g : ndarray -> Key -> result (ndarray * ndarray))
    (xs : ndarray) (keys : list Key) :
  (forall x k, shape x = tl (shape xs) -> f x k = g x k) ->
  vmap f xs keys = vmap g xs keys.
Proof.
  intros Hfg. unfold vmap. destruct (unstack xs) as [rows|e] eqn:Hrows;
    cbn [bind]; [|reflexivity].
  apply unstack_ok in Hrows as (n & D & Hxs & _ & Hall).
  destruct (_ =? _); [|reflexivity].
  assert (E : mapM (fun xk => f (fst xk) (snd xk)) (combine rows keys)
              = mapM (fun xk => g (fst xk) (snd xk)) (combine rows keys)).
  { apply mapM_ext. intros [x k] Hin. apply in_combine_l in Hin.
    rewrite Forall_forall in Hall. apply Hfg. rewrite Hxs. now apply Hall. }
  now rewrite E.
Qed.

(** X10.  The score function is only ever asked about single samples:
    every array it is applied to has the shape of one row of the starting
    batch.  So two score functions that agree on arrays of that shape,
    and differ in any way on others (a whole batch, say), give the same
    call. *)
Theorem score_asked_about_single_samples
    (n_chains n_samples : nat) (key : Key) (epsilon : F)
    (score_func score_func' : Params -> ndarray -> score_result)
    (params : Params) (init_scale : F) (starter_xs : option ndarray)
    (sample_shape : option (list (option nat))) (D : list nat) :
  (forall B, starter_xs = Some B -> tl (shape B) = D) ->
  (forall t D', starter_xs = None -> sample_shape = Some t ->
     dims_of (tl t) = Ok D' -> D' = D) ->
  (forall x, shape x = D -> score_func params x = score_func' params x) ->
  langevin_dynamics n_chains n_samples key epsilon score_func params
    init_scale starter_xs sample_shape
  = langevin_dynamics n_chains n_samples key epsilon score_func' params
      init_scale starter_xs sample_shape.
Proof.
  intros HB Hdims Hscore.
  assert (Hchains : forall t xs, tl (shape xs) = D ->
            vmap (langevin_dynamics_one_chain t epsilon (score_func params)
                    n_samples) xs (random_split key n_chains)
            = vmap (langevin_dynamics_one_chain t epsilon (score_func' params)
                      n_samples) xs (random_split key n_chains)).
  { intros t xs Hxs. apply vmap_ext_on_rows. intros x k Hx.
    apply (one_chain_ext_on_shape _ _ _ _ _ D); [exact Hscore | congruence]. }
  destruct starter_xs as [B|].
  - rewrite !langevin_dynamics_supplied.
    now rewrite (Hchains _ B (HB B eq_refl)).
  - destruct sample_shape as [t|]; [|reflexivity].
    destruct (dims_of (tl t)) as [D'|e] eqn:HD.
    + rewrite !(langevin_dynamics_drawn n_chains n_samples key epsilon _
                  params init_scale t D' HD). cbn zeta.
      rewrite Hchains; [reflexivity|]. simpl. exact (Hdims t D' eq_refl eq_refl HD).
    + unfold langevin_dynamics. cbn [is_None andb bind dims_of].
      rewrite HD. reflexivity.
Qed.

End ScoreCalls.

(** ** Further worked examples on the integer runtime *)

Lemma sample_shape_leading_entry_ignored_witness :
  tl [None; Some 2] = tl [Some 7; Some 2] /\
  run 2 3 42%Z 2%Z neg_score tt 5%Z None (Some [None; Some 2])
  = run 2 3 42%Z 2%Z neg_score tt 5%Z None (Some [Some 7; Some 2]) /\
  run 3 5 42%Z 2%Z zero_score tt 5%Z (Some zeros_3_2) None
  = run 3 5 42%Z 2%Z zero_score tt 5%Z (Some zeros_3_2) (Some [Some 9; Some 2]).
Proof.
  split; [reflexivity|]. split.
  - exact (proj1 (@sample_shape_leading_entry_ignored int_ops int_prng unit
                    2 3 42%Z 2%Z neg_score tt 5%Z None)
             [None; Some 2] [Some 7; Some 2] eq_refl).
  - exact (proj2 (@sample_shape_leading_entry_ignored int_ops int_prng unit
                    3 5 42%Z 2%Z zero_score tt 5%Z (Some zeros_3_2))
             zeros_3_2 (Some 9) eq_refl).
Defined.

Lemma sample_shape_None_entry_raises_witness :
  In None (tl [None; @None nat]) /\
  run 2 3 42%Z 2%Z neg_score tt 5%Z None (Some [None; None])
  = Raise (TypeError "Shapes must be 1D sequences of concrete values of integer type").
Proof.
  split; [left; reflexivity|].
  exact (proj1 (@sample_shape_None_entry_raises int_ops int_prng unit
                  2 3 42%Z 2%Z neg_score tt 5%Z [None; None]
                  (or_introl eq_refl))).
Defined.

Lemma zeros_3_2_shape (B : @ndarray int_ops) :
  Some zeros_3_2 = Some B -> shape B = 3 :: [2].
Proof. intros H. injection H as <-. reflexivity. Defined.

Lemma some_not_none (B : @ndarray int_ops) : Some B <> None.
Proof. discriminate. Defined.

Lemma no_samples_raises_witness :
  0 < 3 /\
  (forall x, shape x = [2] -> exists g, neg_score tt x = Returns g /\ shape g = [2]) /\
  (forall B, Some zeros_3_2 = Some B -> shape B = 3 :: [2]) /\
  Some zeros_3_2 <> None /\
  run 3 0 42%Z 2%Z neg_score tt 5%Z (Some zeros_3_2) None
  = Raise (ValueError "Need at least one array to concatenate.").
Proof.
  split; [lia|]. split; [exact (neg_score_same_shape [2])|].
  split; [exact zeros_3_2_shape|]. split; [exact (some_not_none zeros_3_2)|].
  exact (@no_samples_raises int_ops int_prng unit 3 42%Z 2%Z neg_score tt 5%Z
           (Some zeros_3_2) None [2] (Nat.lt_0_succ 2)
           (neg_score_same_shape [2]) zeros_3_2_shape (some_not_none zeros_3_2)).
Defined.

Lemma score_failure_propagates_witness :
  0 < 3 /\ 0 < 5 /\
  (forall x : @ndarray int_ops, shape x = [2] ->
     bad_score tt x = Fails "broken score function") /\
  (forall B, Some zeros_3_2 = Some B -> shape B = 3 :: [2]) /\
  Some zeros_3_2 <> None /\
  run 3 5 42%Z 2%Z bad_score tt 5%Z (Some zeros_3_2) None
  = Raise (ScoreFunctionError "broken score function").
Proof.
  split; [lia|]. split; [lia|]. split; [reflexivity|].
  split; [exact zeros_3_2_shape|]. split; [exact (some_not_none zeros_3_2)|].
  exact (@score_failure_propagates int_ops int_prng unit 3 5 42%Z 2%Z bad_score
           tt 5%Z (Some zeros_3_2) None [2] "broken score function"
           (Nat.lt_0_succ 2) (Nat.lt_0_succ 4) (fun x _ => eq_refl)
           zeros_3_2_shape (some_not_none zeros_3_2)).
Defined.

Lemma none_is_not_some (B : @ndarray int_ops) : None = Some B -> shape B = 2 :: [2].
Proof. discriminate. Defined.

Lemma langevin_dynamics_returns_witness :
  0 < 3 /\
  (forall x, shape x = [2] -> exists g, neg_score tt x = Returns g /\ shape g = [2]) /\
  (forall B : @ndarray int_ops, None = Some B -> shape B = 2 :: [2]) /\
  @dims_of (tl [None; Some 2]) = Ok [2] /\
  exists starting_batch final_samples samples,
    run 2 3 42%Z 2%Z neg_score tt 5%Z None (Some [None; Some 2])
    = Ok (starting_batch, final_samples, samples).
Proof.
  split; [lia|]. split; [exact (neg_score_same_shape [2])|].
  split; [exact none_is_not_some|]. split; [reflexivity|].
  exact (@langevin_dynamics_returns int_ops int_prng unit 2 3 42%Z 2%Z neg_score
           tt 5%Z None (Some [None; Some 2]) [2] (Nat.lt_0_succ 2)
           (neg_score_same_shape [2]) none_is_not_some eq_refl).
Defined.

Lemma returning_call_shapes_fit_witness :
  0 < 3 /\
  run 3 2 42%Z 2%Z scalar_score tt 5%Z (Some zeros_3_2) (Some [None; Some 1])
    = Ok (arr [3; 2] [0; 0; 0; 0; 0; 0]%Z,
          arr [3; 2] [12; 12; 2; 2; 6; 6]%Z,
          arr [3; 2; 2] [0; 0; 8; 8; 0; 0; -4; -4; 0; 0; -2; -2]%Z) /\
  0 < 2 /\
  exists (Ds : list nat) (g : @ndarray int_ops),
    @dims_of (tl [None; Some 1]) = Ok Ds /\
    stretches_to Ds [2] = true /\
    scalar_score tt (arr [2] [0; 0]%Z) = Returns g /\
    stretches_to (shape g) [2] = true.
Proof.
  split; [lia|]. split; [reflexivity|].
  exact (@returning_call_shapes_fit int_ops int_prng unit 3 2 42%Z 2%Z
           scalar_score tt 5%Z (Some zeros_3_2) (Some [None; Some 1])
           (arr [3; 2] [0; 0; 0; 0; 0; 0]%Z)
           (arr [3; 2] [12; 12; 2; 2; 6; 6]%Z)
           (arr [3; 2; 2] [0; 0; 8; 8; 0; 0; -4; -4; 0; 0; -2; -2]%Z)
           (Nat.lt_0_succ 2) eq_refl).
Defined.

Lemma no_batch_wf (B : @ndarray int_ops) : None = Some B -> wf B.
Proof. discriminate. Defined.

Lemma neg_score_keeps_wf (x g : @ndarray int_ops) :
  wf x -> neg_score tt x = Returns g -> wf g.
Proof. intros Hx H. injection H as <-. now apply smul_l_wf. Defined.

Lemma zero_score_keeps_wf (x g : @ndarray int_ops) :
  wf x -> zero_score tt x = Returns g -> wf g.
Proof. intros _ H. exact (zero_score_wf x g H). Defined.

Lemma output_sizes_witness :
  0 < 1 /\
  (forall B : @ndarray int_ops, None = Some B -> wf B) /\
  (forall x g, wf x -> neg_score tt x = Returns g -> wf g) /\
  run 1 2 42%Z 2%Z neg_score tt 5%Z None (Some [None; Some 2; Some 3])
    = Ok (arr [1; 2; 3] [-15; 0; 15; -5; 10; -10]%Z,
          arr [1; 2; 3] [-19; -4; 11; 5; 6; 0]%Z,
          arr [1; 4; 3] [-15; 0; 15; -5; 10; -10; 21; -2; -11; 1; -8; 4]%Z) /\
  6 = 1 * @size [2; 3] /\
  6 = 1 * @size [2; 3] /\
  12 = 1 * (2 * @size [2; 3]).
Proof.
  split; [lia|]. split; [exact no_batch_wf|].
  split; [exact neg_score_keeps_wf|]. split; [reflexivity|].
  exact (@output_sizes int_ops int_prng unit 1 2 42%Z 2%Z neg_score tt 5%Z
           None (Some [None; Some 2; Some 3]) no_batch_wf neg_score_keeps_wf
           (arr [1; 2; 3] [-15; 0; 15; -5; 10; -10]%Z)
           (arr [1; 2; 3] [-19; -4; 11; 5; 6; 0]%Z)
           (arr [1; 4; 3] [-15; 0; 15; -5; 10; -10; 21; -2; -11; 1; -8; 4]%Z)
           (Nat.lt_0_succ 0) eq_refl).
Defined.

Lemma samples_index_as_trajectory_witness :
  (forall B, Some zeros_3_2 = Some B -> wf B) /\
  (forall x g, wf x -> zero_score tt x = Returns g -> wf g) /\
  run 3 5 42%Z 2%Z zero_score tt 5%Z (Some zeros_3_2) None
    = Ok (arr [3; 2] [0; 0; 0; 0; 0; 0]%Z,
          arr [3; 2] [4; -8; 0; 2; -4; -2]%Z,
          arr [3; 5; 2] [0; 0; 6; -2; 8; -8; 6; -4; 0; -4;
                         0; 0; -6; 0; -2; -4; -2; 2; -6; 4;
                         0; 0; -4; 2; 2; 0; 4; -6; 2; -2]%Z) /\
  tl [3; 2] = [2] /\ 1 < 3 /\ 4 < 5 /\
  @inner int_ops int_prng [None; Some 2] 2%Z (zero_score tt)
    (arr [2] [-6; 4]%Z) (int_subkey (int_subkey 42%Z 3 1) 5 4)
  = Ok (arr [2] [0; 2]%Z, arr [2] [-6; 4]%Z).
Proof.
  split; [exact zeros_3_2_wf|]. split; [exact zero_score_keeps_wf|].
  split; [reflexivity|]. split; [reflexivity|]. split; [lia|]. split; [lia|].
  exact (proj2 (@samples_index_as_trajectory int_ops int_prng unit 3 5 42%Z 2%Z
                  zero_score tt 5%Z (Some zeros_3_2) None
                  (arr [3; 2] [0; 0; 0; 0; 0; 0]%Z)
                  (arr [3; 2] [4; -8; 0; 2; -4; -2]%Z)
                  (arr [3; 5; 2] [0; 0; 6; -2; 8; -8; 6; -4; 0; -4;
                                  0; 0; -6; 0; -2; -4; -2; 2; -6; 4;
                                  0; 0; -4; 2; 2; 0; 4; -6; 2; -2]%Z)
                  2 zeros_3_2_wf zero_score_keeps_wf eq_refl eq_refl
                  1 (le_S 2 2 (le_n 2)))
           4 (le_n 5)).
Defined.

Lemma chains_are_independent_witness :
  shape batch_b = shape batch_a /\
  wf batch_a /\ wf batch_b /\
  (forall x g, wf x -> neg_score tt x = Returns g -> wf g) /\
  1 < 2 /\
  row batch_b 1 = row batch_a 1 /\
  run 2 2 42%Z 2%Z neg_score tt 5%Z (Some batch_a) None
    = Ok (arr [2; 2] [1; 2; 3; 4]%Z,
          arr [2; 2] [-3; -2; 13; 0]%Z,
          arr [2; 2; 2] [1; 2; 5; -4; 3; 4; -9; -4]%Z) /\
  run 2 2 42%Z 2%Z neg_score tt 5%Z (Some batch_b) None
    = Ok (arr [2; 2] [7; 7; 3; 4]%Z,
          arr [2; 2] [3; 3; 13; 0]%Z,
          arr [2; 2; 2] [7; 7; -1; -9; 3; 4; -9; -4]%Z) /\
  row (arr [2; 2] [3; 3; 13; 0]%Z) 1 = row (arr [2; 2] [-3; -2; 13; 0]%Z) 1 /\
  row (arr [2; 2; 2] [7; 7; -1; -9; 3; 4; -9; -4]%Z) 1
  = row (arr [2; 2; 2] [1; 2; 5; -4; 3; 4; -9; -4]%Z) 1.
Proof.
  split; [reflexivity|]. split; [reflexivity|]. split; [reflexivity|].
  split; [exact neg_score_keeps_wf|]. split; [lia|]. split; [reflexivity|].
  split; [reflexivity|]. split; [reflexivity|].
  exact (@chains_are_independent int_ops int_prng unit 2 2 42%Z 2%Z neg_score
           tt 5%Z batch_a batch_b None
           (arr [2; 2] [1; 2; 3; 4]%Z)
           (arr [2; 2] [-3; -2; 13; 0]%Z)
           (arr [2; 2; 2] [1; 2; 5; -4; 3; 4; -9; -4]%Z)
           (arr [2; 2] [7; 7; 3; 4]%Z)
           (arr [2; 2] [3; 3; 13; 0]%Z)
           (arr [2; 2; 2] [7; 7; -1; -9; 3; 4; -9; -4]%Z)
           1 eq_refl eq_refl eq_refl neg_score_keeps_wf (le_n 2) eq_refl
           eq_refl eq_refl).
Defined.

Lemma no_batch_row_shape (B : @ndarray int_ops) : None = Some B -> tl (shape B) = [2].
Proof. discriminate. Defined.

Lemma sample_shape_2_dims (t : list (option nat)) (D' : list nat) :
  @None (@ndarray int_ops) = None ->
  Some [None; Some 2] = Some t -> dims_of (tl t) = Ok D' -> D' = [2].
Proof.
  intros _ Ht HD. injection Ht as <-. simpl in HD. now injection HD as <-.
Defined.

Lemma picky_score_agrees (x : @ndarray int_ops) :
  shape x = [2] -> neg_score tt x = picky_score tt x.
Proof. intros Hx. unfold picky_score. rewrite Hx. reflexivity. Defined.

Lemma score_asked_about_single_samples_witness :
  (forall B : @ndarray int_ops, None = Some B -> tl (shape B) = [2]) /\
  (forall x, shape x = [2] -> neg_score tt x = picky_score tt x) /\
  picky_score tt (arr [2; 2] [1; 2; 3; 4]%Z)
    = Fails "expected one sample of shape (2,)" /\
  run 2 3 42%Z 2%Z neg_score tt 5%Z None (Some [None; Some 2])
  = run 2 3 42%Z 2%Z picky_score tt 5%Z None (Some [None; Some 2]).
Proof.
  split; [exact no_batch_row_shape|]. split; [exact picky_score_agrees|].
  split; [reflexivity|].
  exact (@score_asked_about_single_samples int_ops int_prng unit 2 3 42%Z 2%Z
           neg_score picky_score tt 5%Z None (Some [None; Some 2]) [2]
           no_batch_row_shape sample_shape_2_dims picky_score_agrees).
Defined.

(** ** Continuing and repeating a run *)

Section Composition.
Context {FO : FloatOps} {RNG : PRNG FO}.
Context {Params : Type}.

(** X11.  The final states of a run can seed the next one: when a call
    with at least one chain returns, passing its [final_samples] as
    [starter_xs], with [sample_shape] left out, to a call with the same
    number of chains, any key, step size, initialization scale and
    positive number of samples, and a score function that returns arrays
    shaped like its argument, returns as well, with [final_samples] as its
    starting batch. *)
Theorem final_samples_seed_next_call
    (n_chains n_samples : nat) (key : Key) (epsilon : F)
    (score_func : Params -> ndarray -> score_result) (params : Params)
    (init_scale : F) (starter_xs : option ndarray)
    (sample_shape : option (list (option nat)))
    (starting_batch final_samples samples : ndarray)
    (n_samples' : nat) (key' : Key) (epsilon' : F)
    (score_func' : Params -> ndarray -> score_result) (params' : Params)
    (init_scale' : F) :
  0 < n_chains ->
  0 < n_samples' ->
  langevin_dynamics n_chains n_samples key epsilon score_func params
    init_scale starter_xs sample_shape
    = Ok (starting_batch, final_samples, samples) ->
  (forall x, shape x = tl (shape starting_batch) ->
     exists g, score_func' params' x = Returns g /\
               shape g = tl (shape starting_batch)) ->
  exists final_samples' samples',
    langevin_dynamics n_chains n_samples' key' epsilon' score_func' params'
      init_scale' (Some final_samples) None
    = Ok (final_samples, final_samples', samples').
Proof.
  intros Hn HT H Hscore.
  apply langevin_dynamics_ok_inv in H as ((D & HD) & Hv & _).
  rewrite HD in Hscore. cbn [tl] in Hscore.
  assert (Hkeys : random_split key n_chains <> []).
  { intros E. apply (f_equal (@length _)) in E.
    rewrite random_split_length in E. simpl in E. lia. }
  eapply vmap_shapes with (V := vstack_shape n_samples) in Hv
    as (D' & HB & Hfs & _);
    [| intros x k a b; apply one_chain_shapes | exact Hkeys].
  rewrite random_split_length in *. rewrite HD in HB. injection HB as <-.
  rewrite langevin_dynamics_supplied.
  destruct (vmap_returns
              (langevin_dynamics_one_chain
                 (None :: map Some (tl (shape final_samples)))
                 epsilon' (score_func' params') n_samples')
              final_samples key' n_chains D (vstack_shape n_samples' D) Hfs)
    as (fs' & ss' & Hv').
  { intros x k Hx.
    apply (one_chain_returns _ epsilon' (score_func' params') D);
      [| exact Hscore | exact Hx | exact HT].
    rewrite Hfs. cbn [tl]. apply dims_of_Some. }
  rewrite Hv'. cbn [bind]. eauto.
Qed.

(** X12.  Without [starter_xs], the starting batch is fixed by the key,
    the number of chains, the initialization scale and [sample_shape[1:]]
    alone: two calls that return, with those in common, return the same
    starting batch, whatever their numbers of samples, step sizes and
    score functions are. *)
Theorem drawn_starting_batch_frame
    (n_chains : nat) (key : Key) (init_scale : F)
    (n_samples n_samples' : nat) (epsilon epsilon' : F)
    (score_func score_func' : Params -> ndarray -> score_result)
    (params params' : Params) (t t' : list (option nat))
    (sb fs ss sb' fs' ss' : ndarray) :
  tl t = tl t' ->
  langevin_dynamics n_chains n_samples key epsilon score_func params
    init_scale None (Some t) = Ok (sb, fs, ss) ->
  langevin_dynamics n_chains n_samples' key epsilon' score_func' params'
    init_scale None (Some t') = Ok (sb', fs', ss') ->
  sb = sb'.
Proof.
  intros Ht H H'.
  destruct (dims_of (tl t)) as [D|e] eqn:HD.
  - assert (HD' : dims_of (tl t') = Ok D) by (rewrite <- Ht; exact HD).
    rewrite (langevin_dynamics_drawn _ _ _ _ _ _ _ t D HD) in H.
    rewrite (langevin_dynamics_drawn _ _ _ _ _ _ _ t' D HD') in H'.
    cbn zeta in H, H'.
    apply bind_ok_inv in H as ([a b] & _ & H).
    apply bind_ok_inv in H' as ([a' b'] & _ & H').
    injection H as <- _ _. injection H' as <- _ _. reflexivity.
  - unfold langevin_dynamics in H. cbn [is_None andb bind dims_of] in H.
    rewrite HD in H. discriminate.
Qed.

End Composition.

Lemma neg_score_same_shape_of (x : @ndarray int_ops) :
  shape x = tl (shape (arr [3; 2] [0; 0; 0; 0; 0; 0]%Z)) ->
  exists g, neg_score tt x = Returns g /\
            shape g = tl (shape (arr [3; 2] [0; 0; 0; 0; 0; 0]%Z)).
Proof. exact (neg_score_same_shape [2] x). Defined.

Lemma final_samples_seed_next_call_witness :
  0 < 3 /\ 0 < 2 /\
  run 3 5 42%Z 2%Z zero_score tt 5%Z (Some zeros_3_2) None
    = Ok (arr [3; 2] [0; 0; 0; 0; 0; 0]%Z,
          arr [3; 2] [4; -8; 0; 2; -4; -2]%Z,
          arr [3; 5; 2] [0; 0; 6; -2; 8; -8; 6; -4; 0; -4;
                         0; 0; -6; 0; -2; -4; -2; 2; -6; 4;
                         0; 0; -4; 2; 2; 0; 4; -6; 2; -2]%Z) /\
  exists final_samples' samples',
    run 3 2 7%Z 1%Z neg_score tt 9%Z
      (Some (arr [3; 2] [4; -8; 0; 2; -4; -2]%Z)) None
    = Ok (arr [3; 2] [4; -8; 0; 2; -4; -2]%Z, final_samples', samples').
Proof.
  split; [lia|]. split; [lia|]. split; [reflexivity|].
  exact (@final_samples_seed_next_call int_ops int_prng unit 3 5 42%Z 2%Z
           zero_score tt 5%Z (Some zeros_3_2) None
           (arr [3; 2] [0; 0; 0; 0; 0; 0]%Z)
           (arr [3; 2] [4; -8; 0; 2; -4; -2]%Z)
           (arr [3; 5; 2] [0; 0; 6; -2; 8; -8; 6; -4; 0; -4;
                           0; 0; -6; 0; -2; -4; -2; 2; -6; 4;
                           0; 0; -4; 2; 2; 0; 4; -6; 2; -2]%Z)
           2 7%Z 1%Z neg_score tt 9%Z
           (Nat.lt_0_succ 2) (Nat.lt_0_succ 1) eq_refl
           neg_score_same_shape_of).
Defined.

Lemma drawn_starting_batch_frame_witness :
  tl [None; Some 2] = tl [Some 4; Some 2] /\
  run 2 3 42%Z 2%Z neg_score tt 5%Z None (Some [None; Some 2])
    = Ok (arr [2; 2] [-15; 0; 15; -5]%Z,
          arr [2; 2] [17; 8; -25; 15]%Z,
          arr [2; 3; 2] [-15; 0; 21; -2; -19; -4; 15; -5; -21; 5; 25; -9]%Z) /\
  exists sb' fs' ss',
    run 2 1 42%Z 3%Z zero_score tt 5%Z None (Some [Some 4; Some 2])
      = Ok (sb', fs', ss') /\
    arr [2; 2] [-15; 0; 15; -5]%Z = sb'.
Proof.
  split; [reflexivity|]. split; [reflexivity|].
  do 3 eexists. split; [reflexivity|].
  exact (@drawn_starting_batch_frame int_ops int_prng unit 2 42%Z 5%Z 3 1
           2%Z 3%Z neg_score zero_score tt tt [None; Some 2] [Some 4; Some 2]
           _ _ _ _ _ _ eq_refl eq_refl eq_refl).
Defined.

(** ** Worked examples on the signed-zero runtime *)

Import SignedZeroRuntime.

Lemma sz_drift_vanishes (v w : sz) :
  same_value (sz_add (sz_add v (sz_mul (Num 2) (Num 0))) w) (sz_add v w).
Proof. destruct v, w; unfold same_value; simpl; lia. Qed.

(** The first step from [-0] with the draw [-0]: the sampler computes
    [(-0 + 2 * 0) + 2 * -0 = +0] where the random walk has
    [-0 + 2 * -0 = -0]; the two have the same value and differ in the
    sign of the zero. *)
Lemma signed_zero_step :
  @inner sz_ops sz_prng [None; Some 2] (Num 2) (sz_zero_score tt)
      (sz_arr [2] [NegZero; Num 1]) (sz_subkey 5%Z 3 0)
    = Ok (sz_arr [2] [Num 0; Num 7], sz_arr [2] [NegZero; Num 1]) /\
  @random_normal sz_ops sz_prng (sz_subkey 5%Z 3 0) [2]
    = sz_arr [2] [NegZero; Num 3] /\
  @random_walk_update sz_ops (Num 2) NegZero NegZero = NegZero /\
  same_value (Num 0) NegZero.
Proof. repeat split. Qed.

Lemma zero_score_random_walk_witness :
  @dims_of (tl [None; Some 2]) = Ok [2] /\
  (forall x, sz_zero_score tt x = Returns (@zeros sz_ops (shape x))) /\
  (forall v w : sz,
      same_value (sz_add (sz_add v (sz_mul (Num 2) (Num 0))) w) (sz_add v w)) /\
  shape (sz_arr [2] [NegZero; Num 1]) = [2] /\
  @lax_scan sz_ops sz_prng
      (@inner sz_ops sz_prng [None; Some 2] (Num 2) (sz_zero_score tt))
      (sz_arr [2] [NegZero; Num 1]) (@random_split sz_ops sz_prng 5%Z 3)
    = Ok (sz_arr [2] [Num 2; Num 7],
          [sz_arr [2] [NegZero; Num 1]; sz_arr [2] [Num 0; Num 7];
           sz_arr [2] [Num (-4); Num 9]]) /\
  length [sz_arr [2] [NegZero; Num 1]; sz_arr [2] [Num 0; Num 7];
          sz_arr [2] [Num (-4); Num 9]] = 3 /\
  forall (t : nat) (x x' : @ndarray sz_ops),
    nth_error ([sz_arr [2] [NegZero; Num 1]; sz_arr [2] [Num 0; Num 7];
                sz_arr [2] [Num (-4); Num 9]] ++ [sz_arr [2] [Num 2; Num 7]]) t
      = Some x ->
    nth_error ([sz_arr [2] [NegZero; Num 1]; sz_arr [2] [Num 0; Num 7];
                sz_arr [2] [Num (-4); Num 9]] ++ [sz_arr [2] [Num 2; Num 7]]) (S t)
      = Some x' ->
    shape x' = [2] /\
    Forall2 same_value (data x')
      (@zip_with sz_ops (@random_walk_update sz_ops (Num 2)) (data x)
         (data (@random_normal sz_ops sz_prng (sz_subkey 5%Z 3 t) [2]))).
Proof.
  split; [reflexivity|]. split; [intros x; reflexivity|].
  split; [exact sz_drift_vanishes|]. split; [reflexivity|].
  split; [reflexivity|].
  exact (@zero_score_random_walk sz_ops sz_prng [None; Some 2] (Num 2)
           (sz_zero_score tt) [2] same_value eq_refl (fun x => eq_refl)
           sz_drift_vanishes 3 (sz_arr [2] [NegZero; Num 1]) 5%Z
           (sz_arr [2] [Num 2; Num 7])
           [sz_arr [2] [NegZero; Num 1]; sz_arr [2] [Num 0; Num 7];
            sz_arr [2] [Num (-4); Num 9]]
           eq_refl eq_refl).
Defined.
